(** * picamStreamer: the MJPEG stream handler of 2019/picamStreamer.py

    A shallow embedding of [CamHandler] (do_GET, streamDirect, streamAlgo)
    and proofs about one request handled by it.

    The handler talks to collaborators that are not part of the file
    (picam, algo, comm, cv2, the socket behind [wfile]).  Their answers are
    taken from an environment [Env]: one outcome per call, so that every run
    of the handler corresponds to one environment.  What the handler does to
    them is recorded in a trace of [Event]s, in the order it happens. *)

From Stdlib Require Import String Ascii List ZArith Lia Bool Arith.
From Stdlib Require Import Strings.Byte DecimalString.
Import ListNotations.
Local Open Scope string_scope.
Local Open Scope list_scope.

(** ** Python strings

    [self.path] is decoded from the request line as iso-8859-1, one
    character per byte, so [string] represents it exactly. *)

Module Py.

Definition nl : string := String "010"%char "".
Definition cr : string := String "013"%char "".
Definition dq : string := String "034"%char "".

(** [s[i:]] for [0 <= i]. *)
Fixpoint drop (i : nat) (s : string) : string :=
  match i, s with
  | 0, _ => s
  | S _, EmptyString => EmptyString
  | S i', String _ s' => drop i' s'
  end.

(** [s.endswith(suffix)] *)
Definition endswith (s suffix : string) : bool :=
  Nat.leb (String.length suffix) (String.length s) &&
  String.eqb (drop (String.length s - String.length suffix) s) suffix.

(** [s.rfind(c)] for a one-character [c]: the highest index, or -1. *)
Fixpoint rfind (c : ascii) (s : string) : Z :=
  match s with
  | EmptyString => (-1)%Z
  | String a s' =>
      let r := rfind c s' in
      if (0 <=? r)%Z then (r + 1)%Z
      else if Ascii.eqb a c then 0%Z else (-1)%Z
  end.

(** [posixpath.basename]: [i = p.rfind('/') + 1; return p[i:]] *)
Definition basename (p : string) : string :=
  let i := (rfind "/" p + 1)%Z in
  drop (Z.to_nat i) p.

(** [s.split(sep)] for a one-character [sep]: never the empty list. *)
Fixpoint split (sep : ascii) (s : string) : list string :=
  match s with
  | EmptyString => [EmptyString]
  | String a s' =>
      if Ascii.eqb a sep then EmptyString :: split sep s'
      else match split sep s' with
           | h :: t => String a h :: t
           | [] => [String a EmptyString]
           end
  end.

(** [str(n)] for a non-negative [int]. *)
Definition str_int (n : nat) : string :=
  NilEmpty.string_of_uint (Nat.to_uint n).

(** [bytes(s, 'utf-8')] and [s.encode('latin-1')], for the ASCII text the
    handler encodes. *)
Definition bytes (s : string) : list byte := list_byte_of_string s.

End Py.

(** ** io.BytesIO *)

Module BytesIO.

Record t := mk { buf : list byte; pos : nat }.

(** [io.BytesIO()] *)
Definition new : t := mk [] 0.

(** [write(data)]: overwrite from the position on, padding with zero
    bytes when the position is past the end, and advance. *)
Definition write (data : list byte) (s : t) : t :=
  let pad := repeat x00 (pos s - length (buf s)) in
  mk (firstn (pos s) (buf s) ++ pad ++ data
        ++ skipn (pos s + length data) (buf s))
     (pos s + length data).

Definition seek (p : nat) (s : t) : t := mk (buf s) p.

(** [truncate()]: cut at the position; never extends. *)
Definition truncate (s : t) : t := mk (firstn (pos s) (buf s)) (pos s).

Definition getvalue (s : t) : list byte := buf s.

End BytesIO.

(** ** Exceptions, outcomes *)

(** An instance of [Exception]: its class name and [str(e)].  Signals
    outside [Exception] (KeyboardInterrupt, SystemExit) end the process
    and are not part of a session. *)
Record exn := mkExn { exn_class : string; exn_str : string }.

Definition Exception (msg : string) : exn := mkExn "Exception" msg.

(** The object [picam.PiCam(...)] returns; [cam_bool] is [bool(cam)]. *)
Record CamObj := mkCam { cam_bool : bool }.

(** [comm.Comm(ip)] *)
Inductive Comm := comm_Comm (ip : string).

(** One step of the generator [capture_continuous]: it has written one
    JPEG frame into the stream and yields, it is exhausted, or it raises. *)
Inductive GenStep :=
| GenYield (frame : list byte)
| GenStop
| GenRaise (e : exn).

Inductive result (A : Type) :=
| Ok (a : A)
| Raise (e : exn)
| Timeout.
Arguments Ok {A} a.
Arguments Raise {A} e.
Arguments Timeout {A}.

(** How the body of [while True] in streamAlgo leaves an iteration. *)
Inductive ctl := Next | Break.

(** [cv2.IMWRITE_JPEG_QUALITY] *)
Definition IMWRITE_JPEG_QUALITY : Z := 1.

Definition s_jpgQuality : Z := 80.
Definition s_jpgParam : list Z := [IMWRITE_JPEG_QUALITY; 50%Z].

Definition s_mainPage : string :=
  Py.nl ++ "<html><head>" ++ Py.nl ++
  "<meta content=" ++ Py.dq ++ "text/html;charset=utf-8" ++ Py.dq ++
    " http-equiv=" ++ Py.dq ++ "Content-Type" ++ Py.dq ++ ">" ++ Py.nl ++
  "<meta content=" ++ Py.dq ++ "utf-8" ++ Py.dq ++
    " http-equiv=" ++ Py.dq ++ "encoding" ++ Py.dq ++ ">" ++ Py.nl ++
  "</head><body>" ++ Py.nl ++
  "<img src=" ++ Py.dq ++ "/cam.mjpg" ++ Py.dq ++ "/>" ++ Py.nl ++
  "</body></html>".

(** [main]: which [s_comm] the option [--robot] gives. *)
Definition main_s_comm (robot : string) : option Comm :=
  if robot =? "none" then None
  else Some (comm_Comm (if robot =? "roborio" then "10.49.15.2" else robot)).

Section Model.

(** Camera images (numpy arrays) and detection values are opaque to the
    handler. *)
Variables Image Value : Type.

Inductive Event :=
| EvLogRequest (code : nat)            (* log_request, from send_response *)
| EvSleep (ms : nat)                   (* time.sleep *)
| EvPiCam (r : exn + CamObj)           (* picam.PiCam(...) and its outcome *)
| EvStart                              (* cam.start() *)
| EvNext                               (* cam.next() *)
| EvStop                               (* cam.stop() *)
| EvCapture                            (* one step of capture_continuous *)
| EvProcess (img : Image) (sel : string) (* algo.processFrame *)
| EvState (s : string)                 (* s_comm.updateVisionState *)
| EvTarget (v : Value)                 (* s_comm.UpdateTarget *)
| EvEncode (img : Image)               (* cv2.imencode *)
| EvWrite (bs : list byte)             (* a wfile.write that succeeded *)
| EvPrint (s : string)                 (* print *)
| EvTraceback (e : exn).               (* traceback.print_exception *)

(** The collaborators: the outcome of each of their calls.  Calls made
    once per loop iteration are indexed by the iteration, [res_write] by
    the number of writes made on [wfile] before.  [inl e] and [Some e]
    stand for the call raising [e].  [request_version] is what
    [parse_request] of http.server left in the handler before do_GET: the
    version of the request line, or "HTTP/0.9" when the line had none. *)
Record Env := {
  s_comm : option Comm;
  res_PiCam : exn + CamObj;
  res_start : option exn;
  res_next : nat -> exn + Image;
  res_stop : option exn;
  res_capture : nat -> GenStep;
  res_processFrame : nat -> Image -> string -> exn + (option Value * Image);
  res_imencode : nat -> string -> Image -> list Z -> exn + (bool * list byte);
  res_write : nat -> option exn;
  request_version : string;
  version_string : string;
  date_time_string : string
}.

(** What a request handler can see and change: the trace, the number of
    writes made on [wfile], [_headers_buffer], the global [s_first] and
    the locals that outlive an exception ([cam] of do_GET, [stream] of
    streamDirect). *)
Record State := mkState {
  trace : list Event;
  nwrite : nat;
  headers_buffer : list byte;
  s_first : bool;
  cam : option CamObj;
  stream : BytesIO.t
}.

Definition M (A : Type) : Type := State -> result A * State.

Definition ret {A} (a : A) : M A := fun w => (Ok a, w).
Definition raise {A} (e : exn) : M A := fun w => (Raise e, w).
Definition timeout {A} : M A := fun w => (Timeout, w).

Definition bind {A B} (m : M A) (f : A -> M B) : M B :=
  fun w =>
    match m w with
    | (Ok a, w') => f a w'
    | (Raise e, w') => (Raise e, w')
    | (Timeout, w') => (Timeout, w')
    end.

(** [try: m  except Exception as e: h e] *)
Definition try_except {A} (m : M A) (h : exn -> M A) : M A :=
  fun w =>
    match m w with
    | (Raise e, w') => h e w'
    | other => other
    end.

(** [try: m  finally: fin] *)
Definition try_finally {A} (m : M A) (fin : M unit) : M A :=
  fun w =>
    match m w with
    | (Ok a, w') => bind fin (fun _ => ret a) w'
    | (Raise e, w') => bind fin (fun _ => raise e) w'
    | (Timeout, w') => (Timeout, w')
    end.

Notation "x <- m ;; k" := (bind m (fun x => k))
  (at level 61, m at next level, right associativity).
Notation "m ;; k" := (bind m (fun _ => k))
  (at level 61, right associativity).

Variable E : Env.

(** *** Primitive actions *)

Definition emit (ev : Event) : M unit :=
  fun w => (Ok tt, mkState (trace w ++ [ev]) (nwrite w) (headers_buffer w)
                           (s_first w) (cam w) (stream w)).

Definition print (s : string) : M unit := emit (EvPrint s).
Definition print_exception (e : exn) : M unit := emit (EvTraceback e).
Definition time_sleep (ms : nat) : M unit := emit (EvSleep ms).

(** [self.wfile.write(bs)]: the socket takes the bytes or the call
    raises (the client is gone). *)
Definition wfile_write (bs : list byte) : M unit :=
  fun w =>
    match res_write E (nwrite w) with
    | None => (Ok tt, mkState (trace w ++ [EvWrite bs]) (S (nwrite w))
                              (headers_buffer w) (s_first w) (cam w) (stream w))
    | Some e => (Raise e, mkState (trace w) (S (nwrite w))
                                  (headers_buffer w) (s_first w) (cam w) (stream w))
    end.

Definition get_headers_buffer : M (list byte) :=
  fun w => (Ok (headers_buffer w), w).
Definition set_headers_buffer (b : list byte) : M unit :=
  fun w => (Ok tt, mkState (trace w) (nwrite w) b (s_first w) (cam w) (stream w)).
Definition get_s_first : M bool := fun w => (Ok (s_first w), w).
Definition set_s_first (b : bool) : M unit :=
  fun w => (Ok tt, mkState (trace w) (nwrite w) (headers_buffer w) b (cam w) (stream w)).
Definition get_cam : M (option CamObj) := fun w => (Ok (cam w), w).
Definition set_cam (c : option CamObj) : M unit :=
  fun w => (Ok tt, mkState (trace w) (nwrite w) (headers_buffer w) (s_first w) c (stream w)).
Definition get_stream : M BytesIO.t := fun w => (Ok (stream w), w).
Definition set_stream (s : BytesIO.t) : M unit :=
  fun w => (Ok tt, mkState (trace w) (nwrite w) (headers_buffer w) (s_first w) (cam w) s).

(** *** BaseHTTPRequestHandler: headers are collected in
    [_headers_buffer] and written by [end_headers], unless the request
    line carried no HTTP version ([request_version] is then "HTTP/0.9"):
    for such a request nothing is buffered and nothing is flushed. *)

(** [self.request_version != 'HTTP/0.9'] is false. *)
Definition http09 : bool := request_version E =? "HTTP/0.9".

(** The handler sends no Connection header, so the branch of send_header
    on that keyword is never taken. *)
Definition send_header (keyword value : string) : M unit :=
  if http09 then ret tt
  else
    b <- get_headers_buffer ;;
    set_headers_buffer (b ++ Py.bytes (keyword ++ ": " ++ value ++ Py.cr ++ Py.nl)).

Definition flush_headers : M unit :=
  b <- get_headers_buffer ;;
  wfile_write b ;;
  set_headers_buffer [].

Definition end_headers : M unit :=
  if http09 then ret tt
  else
    b <- get_headers_buffer ;;
    set_headers_buffer (b ++ Py.bytes (Py.cr ++ Py.nl)) ;;
    flush_headers.

Definition responses (code : nat) : string :=
  if Nat.eqb code 200 then "OK" else "".

Definition send_response_only (code : nat) : M unit :=
  if http09 then ret tt
  else
    b <- get_headers_buffer ;;
    set_headers_buffer
      (b ++ Py.bytes ("HTTP/1.0 " ++ Py.str_int code ++ " " ++ responses code
                        ++ Py.cr ++ Py.nl)).

Definition send_response (code : nat) : M unit :=
  emit (EvLogRequest code) ;;
  send_response_only code ;;
  send_header "Server" (version_string E) ;;
  send_header "Date" (date_time_string E).

(** *** picam, algo, comm, cv2 *)

Definition picam_PiCam : M CamObj :=
  emit (EvPiCam (res_PiCam E)) ;;
  match res_PiCam E with
  | inl e => raise e
  | inr c => ret c
  end.

Definition cam_start (c : CamObj) : M unit :=
  emit EvStart ;;
  match res_start E with Some e => raise e | None => ret tt end.

Definition cam_next (c : CamObj) (k : nat) : M Image :=
  emit EvNext ;;
  match res_next E k with inl e => raise e | inr f => ret f end.

Definition cam_stop (c : CamObj) : M unit :=
  emit EvStop ;;
  match res_stop E with Some e => raise e | None => ret tt end.

(** [next] on the generator [cam.cam.capture_continuous(stream, "jpeg",
    quality=s_jpgQuality, use_video_port=True)]: the camera writes one
    JPEG into [stream] at its position; [None] is StopIteration. *)
Definition capture_next (c : CamObj) (k : nat) : M (option unit) :=
  emit EvCapture ;;
  match res_capture E k with
  | GenYield frame =>
      s <- get_stream ;;
      set_stream (BytesIO.write frame s) ;;
      ret (Some tt)
  | GenStop => ret None
  | GenRaise e => raise e
  end.

Definition algo_processFrame (k : nat) (camframe : Image) (algoselector : string)
  : M (option Value * Image) :=
  emit (EvProcess camframe algoselector) ;;
  match res_processFrame E k camframe algoselector with
  | inl e => raise e
  | inr r => ret r
  end.

(** Modelled from the spec: the ControlChannel (module comm, not in the
    sources) is fire-and-forget, its two calls return nothing and report
    no error. *)
Definition updateVisionState (s : string) : M unit := emit (EvState s).
Definition UpdateTarget (v : Value) : M unit := emit (EvTarget v).

(** [cv2.imencode(ext, frame, params)] gives [(rc, jpg)]; [jpg] is an
    array of bytes, [jpg.size] its length and [jpg.tostring()] its bytes. *)
Definition cv2_imencode (k : nat) (ext : string) (frame : Image) (params : list Z)
  : M (bool * list byte) :=
  emit (EvEncode frame) ;;
  match res_imencode E k ext frame params with
  | inl e => raise e
  | inr r => ret r
  end.

(** *** CamHandler.streamDirect *)

Definition jpgboundary : list byte := Py.bytes ("--jpgboundary" ++ Py.nl).

(** The [for] loop over the generator; [k] counts its iterations. *)
Fixpoint streamDirect_for (fuel : nat) (c : CamObj) (k : nat) : M unit :=
  match fuel with
  | 0 => timeout
  | S fuel' =>
      i <- capture_next c k ;;
      match i with
      | None => ret tt
      | Some _ =>
          wfile_write jpgboundary ;;
          send_header "Content-type" "image/jpeg" ;;
          s <- get_stream ;;
          send_header "Content-length" (Py.str_int (length (BytesIO.getvalue s))) ;;
          end_headers ;;
          s <- get_stream ;;
          let val := BytesIO.getvalue s in
          wfile_write val ;;
          s <- get_stream ;;
          set_stream (BytesIO.seek 0 s) ;;
          s <- get_stream ;;
          set_stream (BytesIO.truncate s) ;;
          streamDirect_for fuel' c (S k)
      end
  end.

Definition streamDirect (fuel : nat) (c : CamObj) : M unit :=
  print "direct streaming" ;;
  set_stream BytesIO.new ;;
  try_finally
    (streamDirect_for fuel c 0)
    (s <- get_stream ;;
     set_stream (BytesIO.seek 0 s) ;;
     s <- get_stream ;;
     set_stream (BytesIO.truncate s)).

(** *** CamHandler.streamAlgo *)

(** One iteration of [while True]: [cam.next()], then the [try] block. *)
Definition streamAlgo_body (c : CamObj) (k : nat) (algoselector : string) : M ctl :=
  camframe <- cam_next c k ;;
  try_except
    (vf <- algo_processFrame k camframe algoselector ;;
     let (value, frame) := vf in
     match s_comm E with
     | Some _ =>
         match value with
         | Some v => updateVisionState "Acquired" ;; UpdateTarget v
         | None => updateVisionState "Searching"
         end
     | None => ret tt
     end ;;
     rj <- cv2_imencode k ".jpg" frame s_jpgParam ;;
     let (rc, jpg) := rj in
     if negb rc then ret Next
     else
       first <- get_s_first ;;
       (if first then print (Py.str_int (length jpg)) ;; set_s_first false
        else ret tt) ;;
       wfile_write jpgboundary ;;
       send_header "Content-type" "image/jpeg" ;;
       send_header "Content-length" (Py.str_int (length jpg)) ;;
       end_headers ;;
       wfile_write jpg ;;
       time_sleep 50 ;;
       ret Next)
    (fun e =>
       print ("algo exception: " ++ exn_str e) ;;
       print_exception e ;;
       ret Break).

Fixpoint streamAlgo_while (fuel : nat) (c : CamObj) (k : nat) (algoselector : string)
  : M unit :=
  match fuel with
  | 0 => timeout
  | S fuel' =>
      r <- streamAlgo_body c k algoselector ;;
      match r with
      | Next => streamAlgo_while fuel' c (S k) algoselector
      | Break => ret tt
      end
  end.

Definition streamAlgo (fuel : nat) (c : CamObj) (algoselector : string) : M unit :=
  print (algoselector ++ " algo streaming") ;;
  cam_start c ;;
  streamAlgo_while fuel c 0 algoselector.

(** *** CamHandler.do_GET *)

Definition is_stream_path (path : string) : bool :=
  Py.endswith path ".mjpg" || Py.endswith path ".mjpeg".

Definition algostr (path : string) : string :=
  nth 0 (Py.split "." (Py.basename path)) "".

(** The stream branch, for the session [session] chosen from [algostr]. *)
Definition serve_stream (session : CamObj -> M unit) : M unit :=
  send_response 200 ;;
  send_header "Content-type" "multipart/x-mixed-replace; boundary=--jpgboundary" ;;
  end_headers ;;
  set_cam None ;;
  try_except
    (time_sleep 1000 ;;
     c <- picam_PiCam ;;
     set_cam (Some c) ;;
     (if negb (cam_bool c) then raise (Exception "Hey no camera!") else ret tt) ;;
     session c)
    (fun e => print (exn_str e)) ;;
  print "done streaming ----------------------" ;;
  oc <- get_cam ;;
  match oc with
  | Some c => if cam_bool c then cam_stop c else print "(cam init problem)"
  | None => print "(cam init problem)"
  end.

Definition serve_mainPage : M unit :=
  send_response 200 ;;
  send_header "Content-type" "text/html" ;;
  end_headers ;;
  wfile_write (Py.bytes s_mainPage).

Definition do_GET (fuel : nat) (path : string) : M unit :=
  if is_stream_path path then
    serve_stream
      (fun c =>
         if algostr path =? "direct" then streamDirect fuel c
         else streamAlgo fuel c (algostr path))
  else serve_mainPage.

(** A fresh handler: nothing done yet, nothing buffered. *)
Definition init_state (first : bool) : State :=
  mkState [] 0 [] first None BytesIO.new.

(** *** What can be observed of a trace *)

(** The chunks the socket took, in order, and their bytes. *)
Definition wire (t : list Event) : list (list byte) :=
  flat_map (fun ev => match ev with EvWrite bs => [bs] | _ => [] end) t.

Definition wire_bytes (t : list Event) : list byte := concat (wire t).

Definition is_log (ev : Event) : bool :=
  match ev with EvPrint _ | EvTraceback _ => true | _ => false end.

(** What print and traceback wrote. *)
Definition logged (t : list Event) : list Event := filter is_log t.

Definition is_comm (ev : Event) : bool :=
  match ev with EvState _ | EvTarget _ => true | _ => false end.

(** The calls made on [s_comm]. *)
Definition comm_calls (t : list Event) : list Event := filter is_comm t.

Definition is_stop (ev : Event) : bool :=
  match ev with EvStop => true | _ => false end.

(** How many times [cam.stop()] was called. *)
Definition stops (t : list Event) : nat := length (filter is_stop t).

Definition is_open (ev : Event) : bool :=
  match ev with EvPiCam (inr c) => cam_bool c | _ => false end.

(** How many times [picam.PiCam(...)] gave a camera ([if not cam] false). *)
Definition opens (t : list Event) : nat := length (filter is_open t).

Definition is_process (ev : Event) : bool :=
  match ev with EvProcess _ _ => true | _ => false end.

(** How many times [algo.processFrame] was called. *)
Definition process_calls (t : list Event) : nat := length (filter is_process t).

Definition is_camera (ev : Event) : bool :=
  match ev with
  | EvPiCam _ | EvStart | EvNext | EvStop | EvCapture => true
  | _ => false
  end.

(** *** The multipart framing, as the specification words it, with the
    line ends [send_header] and [end_headers] write *)

Definition part_headers (n : nat) : list byte :=
  Py.bytes ("Content-type: image/jpeg" ++ Py.cr ++ Py.nl) ++
  Py.bytes ("Content-length: " ++ Py.str_int n ++ Py.cr ++ Py.nl) ++
  Py.bytes (Py.cr ++ Py.nl).

(** The three writes of a part framed as the specification says. *)
Definition framed_chunks (jpg : list byte) : list (list byte) :=
  [Py.bytes ("--jpgboundary" ++ Py.nl); part_headers (length jpg); jpg].

(** The part as the specification frames it. *)
Definition framed_part (jpg : list byte) : list byte :=
  concat (framed_chunks jpg).

(** The writes of one part of this request: framed, or the boundary line
    and the JPEG alone when the request line carried no HTTP version. *)
Definition part_chunks (jpg : list byte) : list (list byte) :=
  if http09 then [Py.bytes ("--jpgboundary" ++ Py.nl); jpg]
  else framed_chunks jpg.

(** How many writes one part takes. *)
Definition part_writes : nat := if http09 then 2 else 3.

Definition multipart_part (jpg : list byte) : list byte :=
  concat (part_chunks jpg).

(** The status line and headers a response starts with. *)
Definition response_head (content_type : string) : list byte :=
  Py.bytes ("HTTP/1.0 200 OK" ++ Py.cr ++ Py.nl) ++
  Py.bytes ("Server: " ++ version_string E ++ Py.cr ++ Py.nl) ++
  Py.bytes ("Date: " ++ date_time_string E ++ Py.cr ++ Py.nl) ++
  Py.bytes ("Content-type: " ++ content_type ++ Py.cr ++ Py.nl) ++
  Py.bytes (Py.cr ++ Py.nl).

(** The write [end_headers] makes for the head of a response, with [b]
    buffered before: none when the request line carried no HTTP version. *)
Definition head_chunks (b : list byte) (content_type : string)
  : list (list byte) :=
  if http09 then [] else [b ++ response_head content_type].

(** The outcome of the write of the response head in state [w]; no write
    is attempted when the request line carried no HTTP version. *)
Definition head_write (w : State) : option exn :=
  if http09 then None else res_write E (nwrite w).

(** The state after the head of a response has been sent. *)
Definition headed_state (w : State) (content_type : string) : State :=
  mkState (trace w ++ [EvLogRequest 200]
             ++ map EvWrite (head_chunks (headers_buffer w) content_type))
          (if http09 then nwrite w else S (nwrite w))
          (if http09 then headers_buffer w else [])
          (s_first w) (cam w) (stream w).

(** The JPEG of the [k]-th frame captured, when there is one: in direct
    mode what the camera wrote at step [k]; in algo mode the encoding of
    the processed [k]-th frame, when all three steps succeed. *)
Definition direct_jpeg (k : nat) : option (list byte) :=
  match res_capture E k with
  | GenYield frame => Some frame
  | _ => None
  end.

Definition algo_jpeg (algoselector : string) (k : nat) : option (list byte) :=
  match res_next E k with
  | inr camframe =>
      match res_processFrame E k camframe algoselector with
      | inr (_, frame) =>
          match res_imencode E k ".jpg" frame s_jpgParam with
          | inr (true, jpg) => Some jpg
          | _ => None
          end
      | inl _ => None
      end
  | inl _ => None
  end.

(** The chunks of the part of frame [k], none when it has no JPEG. *)
Definition chunks_of (jpeg : nat -> option (list byte)) (k : nat)
  : list (list byte) :=
  match jpeg k with
  | Some jpg => part_chunks jpg
  | None => []
  end.

(** *** The events of one iteration of streamAlgo *)

(** The calls on [s_comm] for a detection value. *)
Definition comm_events (value : option Value) : list Event :=
  match s_comm E with
  | Some _ =>
      match value with
      | Some v => [EvState "Acquired"; EvTarget v]
      | None => [EvState "Searching"]
      end
  | None => []
  end.

(** The size printed for the first JPEG since the process started. *)
Definition first_events (first : bool) (jpg : list byte) : list Event :=
  if first then [EvPrint (Py.str_int (length jpg))] else [].

(** What the [except] clause of streamAlgo logs. *)
Definition algo_exception_events (e : exn) : list Event :=
  [EvPrint ("algo exception: " ++ exn_str e); EvTraceback e].

(** The events the two frame loops can add to the trace. *)
Definition direct_event (ev : Event) : bool :=
  match ev with
  | EvPrint _ | EvCapture | EvWrite _ => true
  | _ => false
  end.

Definition algo_event (ev : Event) : bool :=
  match ev with
  | EvStart | EvNext | EvProcess _ _ | EvState _ | EvTarget _ | EvEncode _
  | EvWrite _ | EvPrint _ | EvTraceback _ | EvSleep _ => true
  | _ => false
  end.

Definition session_event (ev : Event) : bool :=
  direct_event ev || algo_event ev.

(** [w'] comes after [w]: the local [cam] is the same and the trace has
    grown by events that satisfy [p]. *)
Definition extends (p : Event -> bool) (w w' : State) : Prop :=
  cam w' = cam w /\
  exists d, trace w' = trace w ++ d /\ forallb p d = true.

(** An incomplete part: the first writes of a part, not all of them. *)
Definition incomplete (tail : list (list byte)) : Prop :=
  exists i jpg, i < part_writes /\ tail = firstn i (part_chunks jpg).

(** The JPEG of frame [k] in the session the path selects. *)
Definition session_jpeg (path : string) : nat -> option (list byte) :=
  if algostr path =? "direct" then direct_jpeg
  else algo_jpeg (algostr path).

(** *** The states do_GET goes through *)

Definition stream_content_type : string :=
  "multipart/x-mixed-replace; boundary=--jpgboundary".

(** The write that sends the head of a stream response from state [w]. *)
Definition stream_head_chunks (w : State) : list (list byte) :=
  head_chunks (headers_buffer w) stream_content_type.

(** The bytes of the head of a stream response. *)
Definition stream_head : list byte :=
  if http09 then [] else response_head stream_content_type.

Definition done_streaming : string := "done streaming ----------------------".

(** [w] with the events [evs] added. *)
Definition add_events (w : State) (evs : list Event) : State :=
  mkState (trace w ++ evs) (nwrite w) (headers_buffer w) (s_first w) (cam w)
          (stream w).

(** The state in which the session starts: the response head is written
    and [cam] holds the camera [c]. *)
Definition opened_state (w : State) (c : CamObj) : State :=
  mkState (trace w ++ [EvLogRequest 200]
             ++ map EvWrite (stream_head_chunks w)
             ++ [EvSleep 1000; EvPiCam (inr c)])
          (if http09 then nwrite w else S (nwrite w))
          (if http09 then headers_buffer w else [])
          (s_first w) (Some c) (stream w).

(** Whether do_GET gets a camera: the path is a stream path, the response
    head can be written and [picam.PiCam(...)] gives a true object. *)
Definition acquires (path : string) (w : State) : bool :=
  is_stream_path path &&
  match head_write w with
  | None =>
      match res_PiCam E with
      | inr c => cam_bool c
      | inl _ => false
      end
  | Some _ => false
  end.

(** What [cam.stop()] gives do_GET to return. *)
Definition stop_result : result unit :=
  match res_stop E with
  | None => Ok tt
  | Some e => Raise e
  end.

(** *** The mode of a request, as the specification words it *)

Inductive Mode :=
| Landing
| Direct
| Algo (algorithmSelector : string).

(** The text before the first [c]. *)
Fixpoint before_first (c : ascii) (s : string) : string :=
  match s with
  | EmptyString => EmptyString
  | String a s' => if Ascii.eqb a c then EmptyString else String a (before_first c s')
  end.

(** The final path segment: what follows the last [/]. *)
Definition final_segment (path : string) : string :=
  last (Py.split "/" path) "".

Definition spec_stem (path : string) : string :=
  before_first "." (final_segment path).

Definition spec_mode (path : string) : Mode :=
  if Py.endswith path ".mjpg" || Py.endswith path ".mjpeg" then
    if String.eqb (spec_stem path) "direct" then Direct
    else Algo (spec_stem path)
  else Landing.

(** What the handler does in each mode. *)
Definition run_mode (fuel : nat) (m : Mode) : M unit :=
  match m with
  | Landing => serve_mainPage
  | Direct => serve_stream (streamDirect fuel)
  | Algo sel => serve_stream (fun c => streamAlgo fuel c sel)
  end.

End Model.

Arguments EvLogRequest {Image Value}.
Arguments EvSleep {Image Value}.
Arguments EvPiCam {Image Value}.
Arguments EvStart {Image Value}.
Arguments EvNext {Image Value}.
Arguments EvStop {Image Value}.
Arguments EvCapture {Image Value}.
Arguments EvProcess {Image Value}.
Arguments EvState {Image Value}.
Arguments EvTarget {Image Value}.
Arguments EvEncode {Image Value}.
Arguments EvWrite {Image Value}.
Arguments EvPrint {Image Value}.
Arguments EvTraceback {Image Value}.
Arguments mkState {Image Value}.
Arguments trace {Image Value}.
Arguments nwrite {Image Value}.
Arguments headers_buffer {Image Value}.
Arguments s_first {Image Value}.
Arguments cam {Image Value}.
Arguments stream {Image Value}.
Arguments s_comm {Image Value}.
Arguments res_PiCam {Image Value}.
Arguments res_start {Image Value}.
Arguments res_next {Image Value}.
Arguments res_stop {Image Value}.
Arguments res_capture {Image Value}.
Arguments res_processFrame {Image Value}.
Arguments res_imencode {Image Value}.
Arguments res_write {Image Value}.
Arguments request_version {Image Value}.
Arguments version_string {Image Value}.
Arguments date_time_string {Image Value}.
Arguments ret {Image Value A}.
Arguments raise {Image Value A}.
Arguments timeout {Image Value A}.
Arguments bind {Image Value A B}.
Arguments try_except {Image Value A}.
Arguments try_finally {Image Value A}.
Arguments emit {Image Value}.
Arguments print {Image Value}.
Arguments print_exception {Image Value}.
Arguments time_sleep {Image Value}.
Arguments wfile_write {Image Value}.
Arguments get_headers_buffer {Image Value}.
Arguments set_headers_buffer {Image Value}.
Arguments get_s_first {Image Value}.
Arguments set_s_first {Image Value}.
Arguments get_cam {Image Value}.
Arguments set_cam {Image Value}.
Arguments get_stream {Image Value}.
Arguments set_stream {Image Value}.
Arguments http09 {Image Value} E : simpl never.
Arguments send_header {Image Value}.
Arguments flush_headers {Image Value}.
Arguments end_headers {Image Value}.
Arguments send_response_only {Image Value}.
Arguments send_response {Image Value}.
Arguments picam_PiCam {Image Value}.
Arguments cam_start {Image Value}.
Arguments cam_next {Image Value}.
Arguments cam_stop {Image Value}.
Arguments capture_next {Image Value}.
Arguments algo_processFrame {Image Value}.
Arguments updateVisionState {Image Value}.
Arguments UpdateTarget {Image Value}.
Arguments cv2_imencode {Image Value}.
Arguments streamDirect_for {Image Value}.
Arguments streamDirect {Image Value}.
Arguments streamAlgo_body {Image Value}.
Arguments streamAlgo_while {Image Value}.
Arguments streamAlgo {Image Value}.
Arguments serve_stream {Image Value}.
Arguments serve_mainPage {Image Value}.
Arguments do_GET {Image Value}.
Arguments init_state {Image Value}.
Arguments wire {Image Value}.
Arguments wire_bytes {Image Value}.
Arguments is_log {Image Value}.
Arguments logged {Image Value}.
Arguments is_comm {Image Value}.
Arguments comm_calls {Image Value}.
Arguments is_stop {Image Value}.
Arguments stops {Image Value}.
Arguments is_open {Image Value}.
Arguments opens {Image Value}.
Arguments is_process {Image Value}.
Arguments process_calls {Image Value}.
Arguments is_camera {Image Value}.
Arguments response_head {Image Value}.
Arguments direct_jpeg {Image Value}.
Arguments algo_jpeg {Image Value}.
Arguments run_mode {Image Value}.
Arguments comm_events {Image Value}.
Arguments session_jpeg {Image Value}.
Arguments session_event {Image Value}.
Arguments acquires {Image Value}.
Arguments stream_head {Image Value}.
Arguments stream_head_chunks {Image Value}.
Arguments part_chunks {Image Value}.
Arguments part_writes {Image Value}.
Arguments multipart_part {Image Value}.
Arguments head_chunks {Image Value}.
Arguments head_write {Image Value}.
Arguments headed_state {Image Value}.
Arguments chunks_of {Image Value}.
Arguments incomplete {Image Value}.
Arguments add_events {Image Value}.
Arguments opened_state {Image Value}.
Arguments stop_result {Image Value}.
Arguments direct_event {Image Value}.
Arguments algo_event {Image Value}.
Arguments extends {Image Value}.
Arguments first_events {Image Value}.
Arguments algo_exception_events {Image Value}.

(** ** Further vocabulary *)

(** Whether the character [c] occurs in [s]. *)
Fixpoint occurs (c : ascii) (s : string) : bool :=
  match s with
  | EmptyString => false
  | String a s' => Ascii.eqb a c || occurs c s'
  end.

Section Vocabulary.

Variables Image Value : Type.
Variable E : Env Image Value.

(** The pacing sleep of streamAlgo, [time.sleep(0.05)]. *)
Definition is_pause (ev : Event Image Value) : bool :=
  match ev with
  | EvSleep ms => Nat.eqb ms 50
  | _ => false
  end.

Definition pauses (t : list (Event Image Value)) : nat := length (filter is_pause t).

(** Iteration [k] of streamAlgo cannot hand over to the next one:
    [cam.next()], [algo.processFrame] or [cv2.imencode] raises. *)
Definition algo_fails (algoselector : string) (k : nat) : bool :=
  match res_next E k with
  | inl _ => true
  | inr camframe =>
      match res_processFrame E k camframe algoselector with
      | inl _ => true
      | inr (_, frame) =>
          match res_imencode E k ".jpg" frame s_jpgParam with
          | inl _ => true
          | inr _ => false
          end
      end
  end.

(** Iteration [k] of streamAlgo runs to [continue]: the frame is pulled
    and processed, and imencode gives a false [rc]. *)
Definition algo_skips (algoselector : string) (k : nat) : bool :=
  match res_next E k with
  | inl _ => false
  | inr camframe =>
      match res_processFrame E k camframe algoselector with
      | inl _ => false
      | inr (_, frame) =>
          match res_imencode E k ".jpg" frame s_jpgParam with
          | inr (false, _) => true
          | _ => false
          end
      end
  end.

(** The events do_GET adds itself, outside the session. *)
Definition wrapper_event (ev : Event Image Value) : bool :=
  match ev with
  | EvLogRequest _ | EvWrite _ | EvSleep _ | EvPiCam _ | EvPrint _ | EvStop => true
  | _ => false
  end.

(** The events only streamAlgo produces. *)
Definition algo_only_event (ev : Event Image Value) : bool :=
  match ev with
  | EvStart | EvNext | EvProcess _ _ | EvState _ | EvTarget _ | EvEncode _
  | EvTraceback _ => true
  | _ => false
  end.

Definition is_capture (ev : Event Image Value) : bool :=
  match ev with EvCapture => true | _ => false end.

(** What do_GET prints when it gets no camera: the message of the
    exception of [picam.PiCam(...)], or its own for a false object. *)
Definition no_camera_message : option string :=
  match res_PiCam E with
  | inl e => Some (exn_str e)
  | inr c => if cam_bool c then None else Some "Hey no camera!"
  end.

End Vocabulary.

Arguments is_pause {Image Value}.
Arguments pauses {Image Value}.
Arguments algo_fails {Image Value}.
Arguments algo_skips {Image Value}.
Arguments wrapper_event {Image Value}.
Arguments algo_only_event {Image Value}.
Arguments is_capture {Image Value}.
Arguments no_camera_message {Image Value}.

(** ** Sample collaborators

    Concrete environments over [nat] images and values, on which the
    theorems below are exercised. *)

Definition broken_pipe : exn := mkExn "BrokenPipeError" "[Errno 32] Broken pipe".
Definition camera_error : exn := mkExn "PiCameraError" "Camera is not open".
Definition algo_error : exn := mkExn "ValueError" "no contours".

(** A JPEG whose length tells the frame. *)
Definition sample_jpeg (k : nat) : list byte := repeat xff (S k).

(** Everything works: the client stays, each frame is processed and
    encoded, a target is seen in the even frames; the direct capture gives
    three frames and ends. *)
Definition good_env : Env nat nat := {|
  s_comm := Some (comm_Comm "10.49.15.2");
  res_PiCam := inr (mkCam true);
  res_start := None;
  res_next := fun k => inr k;
  res_stop := None;
  res_capture := fun k => if Nat.ltb k 3 then GenYield (sample_jpeg k) else GenStop;
  res_processFrame := fun k camframe _ =>
    inr (if Nat.even k then Some k else None, camframe);
  res_imencode := fun k _ _ _ => inr (true, sample_jpeg k);
  res_write := fun _ => None;
  request_version := "HTTP/1.1";
  version_string := "BaseHTTP/0.6 Python/3.7.3";
  date_time_string := "Sat, 02 Mar 2019 10:00:00 GMT"
|}.

(** [good_env], but processFrame raises in iteration [n] (counted from 0). *)
Definition process_fails_env (n : nat) : Env nat nat := {|
  s_comm := s_comm good_env;
  res_PiCam := res_PiCam good_env;
  res_start := res_start good_env;
  res_next := res_next good_env;
  res_stop := res_stop good_env;
  res_capture := res_capture good_env;
  res_processFrame := fun k camframe sel =>
    if Nat.eqb k n then inl algo_error else res_processFrame good_env k camframe sel;
  res_imencode := res_imencode good_env;
  res_write := res_write good_env;
  request_version := request_version good_env;
  version_string := version_string good_env;
  date_time_string := date_time_string good_env
|}.

(** [process_fails_env n], but imencode gives a false [rc] in iteration [m]. *)
Definition skip_env (m n : nat) : Env nat nat := {|
  s_comm := s_comm good_env;
  res_PiCam := res_PiCam good_env;
  res_start := res_start good_env;
  res_next := res_next good_env;
  res_stop := res_stop good_env;
  res_capture := res_capture good_env;
  res_processFrame := res_processFrame (process_fails_env n);
  res_imencode := fun k ext frame params =>
    if Nat.eqb k m then inr (false, []) else res_imencode good_env k ext frame params;
  res_write := res_write good_env;
  request_version := request_version good_env;
  version_string := version_string good_env;
  date_time_string := date_time_string good_env
|}.

(** [good_env], but the client is gone from write [i] on. *)
Definition disconnect_env (i : nat) : Env nat nat := {|
  s_comm := s_comm good_env;
  res_PiCam := res_PiCam good_env;
  res_start := res_start good_env;
  res_next := res_next good_env;
  res_stop := res_stop good_env;
  res_capture := fun k => GenYield (sample_jpeg k);
  res_processFrame := res_processFrame good_env;
  res_imencode := res_imencode good_env;
  res_write := fun j => if Nat.leb i j then Some broken_pipe else None;
  request_version := request_version good_env;
  version_string := version_string good_env;
  date_time_string := date_time_string good_env
|}.

(** [process_fails_env n], but [cam.stop()] raises. *)
Definition stop_fails_env (n : nat) : Env nat nat := {|
  s_comm := s_comm good_env;
  res_PiCam := res_PiCam good_env;
  res_start := res_start good_env;
  res_next := res_next good_env;
  res_stop := Some camera_error;
  res_capture := res_capture good_env;
  res_processFrame := res_processFrame (process_fails_env n);
  res_imencode := res_imencode good_env;
  res_write := res_write good_env;
  request_version := request_version good_env;
  version_string := version_string good_env;
  date_time_string := date_time_string good_env
|}.

(** [good_env], but [cam.start()] raises. *)
Definition start_fails_env : Env nat nat := {|
  s_comm := s_comm good_env;
  res_PiCam := res_PiCam good_env;
  res_start := Some camera_error;
  res_next := res_next good_env;
  res_stop := res_stop good_env;
  res_capture := res_capture good_env;
  res_processFrame := res_processFrame good_env;
  res_imencode := res_imencode good_env;
  res_write := res_write good_env;
  request_version := request_version good_env;
  version_string := version_string good_env;
  date_time_string := date_time_string good_env
|}.

(** [good_env], but [cam.next()] raises in iteration [n] (counted from 0). *)
Definition next_fails_env (n : nat) : Env nat nat := {|
  s_comm := s_comm good_env;
  res_PiCam := res_PiCam good_env;
  res_start := res_start good_env;
  res_next := fun k => if Nat.eqb k n then inl camera_error else res_next good_env k;
  res_stop := res_stop good_env;
  res_capture := res_capture good_env;
  res_processFrame := res_processFrame good_env;
  res_imencode := res_imencode good_env;
  res_write := res_write good_env;
  request_version := request_version good_env;
  version_string := version_string good_env;
  date_time_string := date_time_string good_env
|}.

(** No frame can be encoded, and the client is gone after the response
    head. *)
Definition never_encodes_env : Env nat nat := {|
  s_comm := s_comm good_env;
  res_PiCam := res_PiCam good_env;
  res_start := res_start good_env;
  res_next := res_next good_env;
  res_stop := res_stop good_env;
  res_capture := res_capture good_env;
  res_processFrame := res_processFrame good_env;
  res_imencode := fun _ _ _ _ => inr (false, []);
  res_write := res_write (disconnect_env 1);
  request_version := request_version good_env;
  version_string := version_string good_env;
  date_time_string := date_time_string good_env
|}.

(** [good_env] as [main] sets it up for [--robot none]. *)
Definition no_robot_env : Env nat nat := {|
  s_comm := main_s_comm "none";
  res_PiCam := res_PiCam good_env;
  res_start := res_start good_env;
  res_next := res_next good_env;
  res_stop := res_stop good_env;
  res_capture := res_capture good_env;
  res_processFrame := res_processFrame (process_fails_env 3);
  res_imencode := res_imencode good_env;
  res_write := res_write good_env;
  request_version := request_version good_env;
  version_string := version_string good_env;
  date_time_string := date_time_string good_env
|}.

(** The camera cannot be opened. *)
Definition no_camera_env : Env nat nat := {|
  s_comm := s_comm good_env;
  res_PiCam := inl camera_error;
  res_start := res_start good_env;
  res_next := res_next good_env;
  res_stop := res_stop good_env;
  res_capture := res_capture good_env;
  res_processFrame := res_processFrame good_env;
  res_imencode := res_imencode good_env;
  res_write := res_write good_env;
  request_version := request_version good_env;
  version_string := version_string good_env;
  date_time_string := date_time_string good_env
|}.

(** The collaborators of [env], for a request line without an HTTP
    version, as [GET /direct.mjpg]: http.server leaves [request_version]
    at its default. *)
Definition versionless (env : Env nat nat) : Env nat nat := {|
  s_comm := s_comm env;
  res_PiCam := res_PiCam env;
  res_start := res_start env;
  res_next := res_next env;
  res_stop := res_stop env;
  res_capture := res_capture env;
  res_processFrame := res_processFrame env;
  res_imencode := res_imencode env;
  res_write := res_write env;
  request_version := "HTTP/0.9";
  version_string := version_string env;
  date_time_string := date_time_string env
|}.

Definition versionless_env : Env nat nat := versionless good_env.

(** A handler that starts a request, before and after the first JPEG of
    the process was announced. *)
Definition fresh : State nat nat := init_state true.
Definition fresh_seen : State nat nat := init_state false.

(** The camera object of the sample environments. *)
Definition the_cam : CamObj := mkCam true.

(** * Proofs *)

(** ** Paths *)

Section Paths.

Lemma split_nonempty c s : Py.split c s <> [].
Proof.
  destruct s as [|a s]; simpl; [discriminate|].
  destruct (Ascii.eqb a c); [discriminate|].
  destruct (Py.split c s); discriminate.
Qed.

(** [s.split(c)[0]] is the text before the first [c]. *)
Lemma split_head c s : nth 0 (Py.split c s) "" = before_first c s.
Proof.
  induction s as [|a s IH]; simpl; [reflexivity|].
  destruct (Ascii.eqb a c); [reflexivity|].
  destruct (Py.split c s) as [|h t] eqn:Hs.
  - exfalso. exact (split_nonempty c s Hs).
  - simpl in *. now rewrite IH.
Qed.

Lemma rfind_lower c s : (-1 <= Py.rfind c s)%Z.
Proof.
  induction s as [|a s IH]; simpl; [lia|].
  destruct (Z.leb_spec 0 (Py.rfind c s)); [lia|].
  destruct (Ascii.eqb a c); lia.
Qed.

(** No occurrence: one segment. *)
Lemma split_rfind_none c s : Py.rfind c s = (-1)%Z -> Py.split c s = [s].
Proof.
  induction s as [|a s IH]; simpl; [reflexivity|].
  destruct (Z.leb_spec 0 (Py.rfind c s)) as [Hr|Hr].
  - lia.
  - destruct (Ascii.eqb a c); [discriminate|].
    intros _. rewrite IH; [reflexivity|].
    pose proof (rfind_lower c s). lia.
Qed.

(** An occurrence: at least two segments. *)
Lemma split_rfind_some c s :
  (0 <= Py.rfind c s)%Z -> exists h h' t, Py.split c s = h :: h' :: t.
Proof.
  induction s as [|a s IH]; simpl; [lia|].
  destruct (Z.leb_spec 0 (Py.rfind c s)) as [Hr|Hr].
  - intros _. destruct (IH Hr) as (h & h' & t & Hs). rewrite Hs.
    destruct (Ascii.eqb a c); eauto.
  - destruct (Ascii.eqb a c); [|lia].
    intros _. destruct (Py.split c s) as [|h t] eqn:Hs.
    + exfalso. exact (split_nonempty c s Hs).
    + eauto.
Qed.

(** [os.path.basename] gives the final path segment. *)
Lemma basename_final_segment p : Py.basename p = final_segment p.
Proof.
  unfold Py.basename, final_segment.
  induction p as [|a p IH]; [reflexivity|].
  cbn [Py.rfind Py.split].
  destruct (Z.leb_spec 0 (Py.rfind "/" p)) as [Hr|Hr].
  - replace (Z.to_nat (Py.rfind "/" p + 1 + 1)) with (S (Z.to_nat (Py.rfind "/" p + 1))) by lia.
    cbn [Py.drop]. rewrite IH.
    destruct (split_rfind_some "/" p Hr) as (h & h' & t & Hs). rewrite Hs.
    destruct (Ascii.eqb a "/"); reflexivity.
  - assert (Hm : Py.rfind "/" p = (-1)%Z) by (pose proof (rfind_lower "/" p); lia).
    rewrite (split_rfind_none "/" p Hm).
    destruct (Ascii.eqb a "/"); reflexivity.
Qed.

(** The stem the handler computes is the stem of the specification. *)
Lemma algostr_spec_stem path : algostr path = spec_stem path.
Proof.
  unfold algostr, spec_stem.
  now rewrite split_head, basename_final_segment.
Qed.

Lemma length_append p x :
  String.length (p ++ x)%string = String.length p + String.length x.
Proof. induction p as [|a p IH]; cbn; [reflexivity | now rewrite IH]. Qed.

Lemma drop_append p x : Py.drop (String.length p) (p ++ x)%string = x.
Proof. induction p as [|a p IH]; cbn; [now destruct x | exact IH]. Qed.

Lemma drop_suffix n s : exists p, s = (p ++ Py.drop n s)%string.
Proof.
  revert s. induction n as [|n IH]; intros s.
  - exists "". reflexivity.
  - destruct s as [|a s]; [exists ""; reflexivity|].
    destruct (IH s) as [p Hp]. exists (String a p). cbn. now rewrite <- Hp.
Qed.

(** [s.endswith(x)] holds exactly when [s] is some text followed by [x]. *)
Lemma endswith_spec s x : Py.endswith s x = true <-> exists p, s = (p ++ x)%string.
Proof.
  unfold Py.endswith. split.
  - intros H. apply andb_prop in H as [_ H]. apply String.eqb_eq in H.
    destruct (drop_suffix (String.length s - String.length x) s) as [p Hp].
    exists p. now rewrite H in Hp.
  - intros [p ->]. rewrite length_append.
    replace (String.length p + String.length x - String.length x)
      with (String.length p) by lia.
    rewrite drop_append, String.eqb_refl, andb_true_r.
    apply Nat.leb_le. lia.
Qed.

(** A path is a stream path exactly when it ends in one of the two
    suffixes. *)
Lemma is_stream_path_spec path :
  is_stream_path path = true <->
  (exists p, path = (p ++ ".mjpg")%string) \/
  (exists p, path = (p ++ ".mjpeg")%string).
Proof.
  unfold is_stream_path. rewrite orb_true_iff, !endswith_spec. reflexivity.
Qed.

End Paths.

(** ** Sessions *)

(** *** Tactics *)

Ltac unfold_handler :=
  unfold serve_mainPage, serve_stream, streamAlgo_body, streamAlgo, streamDirect,
    send_response, send_response_only, send_header, end_headers, flush_headers,
    wfile_write, picam_PiCam, cam_start, cam_next, cam_stop, capture_next,
    algo_processFrame, updateVisionState, UpdateTarget, cv2_imencode,
    print, print_exception, time_sleep, emit,
    get_headers_buffer, set_headers_buffer, get_s_first, set_s_first,
    get_cam, set_cam, get_stream, set_stream,
    try_except, try_finally, bind, ret, raise, timeout in *.

(** Case analysis on the innermost scrutinee of a stuck [match]. *)
Ltac case_step :=
  match goal with
  | H : context [match ?x with _ => _ end] |- _ =>
      lazymatch x with
      | context [match _ with _ => _ end] => fail
      | _ => destruct x eqn:?
      end
  | |- context [match ?x with _ => _ end] =>
      lazymatch x with
      | context [match _ with _ => _ end] => fail
      | _ => destruct x eqn:?
      end
  end.

Ltac app_norm := repeat first [rewrite <- app_assoc | progress cbn [app]].

(** A branch in which [negb b] and [b] were given the same value. *)
Ltac absurd_negb :=
  match goal with
  | Hx : negb _ = _ |- _ => cbn in Hx; discriminate
  end.

(** Projections of explicit states. *)
Ltac st_simpl := cbn [trace nwrite headers_buffer s_first cam stream negb].

Tactic Notation "st_simpl" "in" hyp(H) :=
  cbn [trace nwrite headers_buffer s_first cam stream negb] in H.

(** Reads [(r1, w1) = (r, w')] for variables [r] and [w'], leaving the
    terms as they are written. *)
Ltac run_eq H :=
  apply pair_equal_spec in H;
  let H1 := fresh in let H2 := fresh in
  destruct H as [H1 H2]; try discriminate H1; subst.

(** The two shapes of a response head: absent for a request line without
    an HTTP version, one write otherwise. *)
Ltac head_cases E := unfold stream_head_chunks, head_chunks; destruct (http09 E).

(** Closes [extends p w {| trace := trace w ++ ...; cam := cam w |}]. *)
Ltac extends_now :=
  split; [reflexivity | eexists; split; [app_norm; reflexivity | reflexivity]].

Section Sessions.

Variables Image Value : Type.
Variable E : Env Image Value.

(** *** One iteration of streamAlgo, outcome by outcome *)

(** [cam.next()] raises: the exception leaves the loop. *)
Lemma body_next_fails c k sel w e :
  res_next E k = inl e ->
  streamAlgo_body E c k sel w =
    (Raise e,
     mkState (trace w ++ [EvNext]) (nwrite w) (headers_buffer w)
             (s_first w) (cam w) (stream w)).
Proof.
  intros Hn. unfold_handler. cbn. now rewrite Hn.
Qed.

(** [algo.processFrame] raises: logged, [break]. *)
Lemma body_process_fails c k sel w camframe e :
  res_next E k = inr camframe ->
  res_processFrame E k camframe sel = inl e ->
  streamAlgo_body E c k sel w =
    (Ok Break,
     mkState (trace w ++ [EvNext; EvProcess camframe sel] ++ algo_exception_events e)
             (nwrite w) (headers_buffer w) (s_first w) (cam w) (stream w)).
Proof.
  intros Hn Hp. unfold_handler. cbn. rewrite Hn. cbn. rewrite Hp. cbn.
  now app_norm.
Qed.

(** [cv2.imencode] raises: logged, [break]. *)
Lemma body_encode_raises c k sel w camframe value frame e :
  res_next E k = inr camframe ->
  res_processFrame E k camframe sel = inr (value, frame) ->
  res_imencode E k ".jpg" frame s_jpgParam = inl e ->
  streamAlgo_body E c k sel w =
    (Ok Break,
     mkState (trace w ++ [EvNext; EvProcess camframe sel] ++ comm_events E value
                ++ [EvEncode frame] ++ algo_exception_events e)
             (nwrite w) (headers_buffer w) (s_first w) (cam w) (stream w)).
Proof.
  intros Hn Hp He. unfold_handler. unfold comm_events. cbn. rewrite Hn. cbn.
  rewrite Hp. cbn.
  destruct (s_comm E); [destruct value|]; cbn; rewrite He; cbn; now app_norm.
Qed.

(** [cv2.imencode] gives a false [rc]: [continue], nothing written. *)
Lemma body_encode_skips c k sel w camframe value frame jpg :
  res_next E k = inr camframe ->
  res_processFrame E k camframe sel = inr (value, frame) ->
  res_imencode E k ".jpg" frame s_jpgParam = inr (false, jpg) ->
  streamAlgo_body E c k sel w =
    (Ok Next,
     mkState (trace w ++ [EvNext; EvProcess camframe sel] ++ comm_events E value
                ++ [EvEncode frame])
             (nwrite w) (headers_buffer w) (s_first w) (cam w) (stream w)).
Proof.
  intros Hn Hp He. unfold_handler. unfold comm_events. cbn. rewrite Hn. cbn.
  rewrite Hp. cbn.
  destruct (s_comm E); [destruct value|]; cbn; rewrite He; cbn; now app_norm.
Qed.

(** All steps succeed: one part, its writes, then the pacing sleep. *)
Lemma body_sends c k sel w camframe value frame jpg :
  res_next E k = inr camframe ->
  res_processFrame E k camframe sel = inr (value, frame) ->
  res_imencode E k ".jpg" frame s_jpgParam = inr (true, jpg) ->
  (forall i, i < part_writes E -> res_write E (i + nwrite w) = None) ->
  headers_buffer w = [] ->
  streamAlgo_body E c k sel w =
    (Ok Next,
     mkState (trace w ++ [EvNext; EvProcess camframe sel] ++ comm_events E value
                ++ [EvEncode frame] ++ first_events (s_first w) jpg
                ++ map EvWrite (part_chunks E jpg) ++ [EvSleep 50])
             (part_writes E + nwrite w) [] false (cam w) (stream w)).
Proof.
  intros Hn Hp He Hw Hb. unfold part_writes, part_chunks, framed_chunks in *.
  unfold_handler. unfold comm_events, first_events.
  destruct (http09 E).
  - pose proof (Hw 0 ltac:(lia)) as H0. pose proof (Hw 1 ltac:(lia)) as H1.
    cbn in H0, H1. cbn. rewrite Hn. cbn. rewrite Hp. cbn.
    destruct (s_comm E); [destruct value|]; cbn; rewrite He; cbn;
      destruct (s_first w) eqn:Hf; cbn; rewrite H0; cbn; rewrite H1; cbn;
      rewrite Hb; app_norm; cbn; rewrite ?Hf; reflexivity.
  - pose proof (Hw 0 ltac:(lia)) as H0. pose proof (Hw 1 ltac:(lia)) as H1.
    pose proof (Hw 2 ltac:(lia)) as H2.
    cbn in H0, H1, H2. cbn. rewrite Hn. cbn. rewrite Hp. cbn.
    destruct (s_comm E); [destruct value|]; cbn; rewrite He; cbn;
      destruct (s_first w) eqn:Hf; cbn; rewrite H0; cbn; rewrite H1; cbn;
      rewrite H2; cbn; rewrite Hb; app_norm; cbn; rewrite ?Hf; reflexivity.
Qed.

(** *** Traces *)

Lemma wire_app (t u : list (Event Image Value)) : wire (t ++ u) = wire t ++ wire u.
Proof. apply flat_map_app. Qed.

Lemma wire_map_EvWrite (l : list (list byte)) :
  wire (map (@EvWrite Image Value) l) = l.
Proof.
  unfold wire. induction l as [|x l IH]; cbn; [reflexivity | now rewrite IH].
Qed.

Lemma logged_app (t u : list (Event Image Value)) :
  logged (t ++ u) = logged t ++ logged u.
Proof. apply filter_app. Qed.

Lemma comm_calls_app (t u : list (Event Image Value)) :
  comm_calls (t ++ u) = comm_calls t ++ comm_calls u.
Proof. apply filter_app. Qed.

Lemma stops_app (t u : list (Event Image Value)) : stops (t ++ u) = stops t + stops u.
Proof. unfold stops. now rewrite filter_app, length_app. Qed.

Lemma opens_app (t u : list (Event Image Value)) : opens (t ++ u) = opens t + opens u.
Proof. unfold opens. now rewrite filter_app, length_app. Qed.

Lemma process_calls_app (t u : list (Event Image Value)) :
  process_calls (t ++ u) = process_calls t + process_calls u.
Proof. unfold process_calls. now rewrite filter_app, length_app. Qed.

(** Writes are neither stops nor opens, and nothing is logged by them. *)
Lemma stops_writes (l : list (list byte)) : stops (map (@EvWrite Image Value) l) = 0.
Proof. unfold stops. induction l; cbn; auto. Qed.

Lemma opens_writes (l : list (list byte)) : opens (map (@EvWrite Image Value) l) = 0.
Proof. unfold opens. induction l; cbn; auto. Qed.

Lemma logged_writes (l : list (list byte)) : logged (map (@EvWrite Image Value) l) = [].
Proof. unfold logged. induction l; cbn; auto. Qed.

Lemma process_calls_writes (l : list (list byte)) :
  process_calls (map (@EvWrite Image Value) l) = 0.
Proof. unfold process_calls. induction l; cbn; auto. Qed.

Lemma comm_calls_writes (l : list (list byte)) :
  comm_calls (map (@EvWrite Image Value) l) = [].
Proof. unfold comm_calls. induction l; cbn; auto. Qed.

(** Events that all satisfy [p] leave nothing under a filter [q] that
    [p] excludes. *)
Lemma filter_excluded (p q : Event Image Value -> bool) d :
  (forall ev, p ev = true -> q ev = false) ->
  forallb p d = true -> filter q d = [].
Proof.
  intros Hpq. induction d as [|ev d IH]; cbn; [reflexivity|].
  intros H. apply andb_prop in H as [Hev Hd].
  rewrite (Hpq ev Hev). auto.
Qed.

Lemma extends_refl p (w : State Image Value) : extends p w w.
Proof. split; [reflexivity|]. exists []. now rewrite app_nil_r. Qed.

Lemma extends_trans p (w1 w2 w3 : State Image Value) :
  extends p w1 w2 -> extends p w2 w3 -> extends p w1 w3.
Proof.
  intros [Hc1 (d1 & Ht1 & Hp1)] [Hc2 (d2 & Ht2 & Hp2)]. split; [congruence|].
  exists (d1 ++ d2). rewrite Ht2, Ht1, <- app_assoc. split; [reflexivity|].
  rewrite forallb_app, Hp1, Hp2. reflexivity.
Qed.

(** *** What the frame loops leave alone *)

Lemma streamAlgo_body_extends c k sel w r w' :
  streamAlgo_body E c k sel w = (r, w') -> extends algo_event w w'.
Proof.
  intros H. unfold_handler. cbn in H.
  repeat (case_step; cbn in H); inversion H; subst; clear H;
    first [apply extends_refl | extends_now].
Qed.

Lemma streamAlgo_while_extends fuel c sel : forall k w r w',
  streamAlgo_while E fuel c k sel w = (r, w') -> extends algo_event w w'.
Proof.
  induction fuel as [|fuel IH]; intros k w r w' H; cbn in H.
  - inversion H; subst. apply extends_refl.
  - unfold bind at 1 in H.
    destruct (streamAlgo_body E c k sel w) as [r1 w1] eqn:Hb.
    apply streamAlgo_body_extends in Hb.
    destruct r1 as [[]| |].
    + eapply extends_trans; [exact Hb|]. eapply IH; exact H.
    + inversion H; subst. exact Hb.
    + inversion H; subst. exact Hb.
    + inversion H; subst. exact Hb.
Qed.

Lemma streamAlgo_extends fuel c sel w r w' :
  streamAlgo E fuel c sel w = (r, w') -> extends algo_event w w'.
Proof.
  intros H. unfold streamAlgo, print, cam_start, emit, bind, ret, raise in H.
  cbn in H. destruct (res_start E).
  - inversion H; subst. extends_now.
  - apply streamAlgo_while_extends in H.
    eapply extends_trans; [|exact H]. extends_now.
Qed.

Lemma streamDirect_for_extends fuel c : forall k w r w',
  streamDirect_for E fuel c k w = (r, w') -> extends direct_event w w'.
Proof.
  induction fuel as [|fuel IH]; intros k w r w' H; cbn in H.
  - inversion H; subst. apply extends_refl.
  - unfold_handler. cbn in H.
    repeat (case_step; cbn in H);
      first [ inversion H; subst; clear H; first [apply extends_refl | extends_now]
            | apply IH in H; eapply extends_trans; [|exact H]; extends_now ].
Qed.

Lemma streamDirect_extends fuel c w r w' :
  streamDirect E fuel c w = (r, w') -> extends direct_event w w'.
Proof.
  intros H. unfold streamDirect, try_finally in H. unfold bind at 1 2 in H.
  unfold print, emit, set_stream in H. cbn in H.
  match type of H with context [streamDirect_for E fuel c 0 ?w0] =>
    destruct (streamDirect_for E fuel c 0 w0) as [r1 w1] eqn:Hf end.
  apply streamDirect_for_extends in Hf.
  assert (Hw : extends direct_event w w1).
  { eapply extends_trans; [|exact Hf]. extends_now. }
  destruct Hw as [Hc (d & Ht & Hd)].
  unfold_handler. cbn in H.
  destruct r1; inversion H; subst; clear H; (split; [exact Hc|]); exists d; cbn; auto.
Qed.

(** *** do_GET around the session *)

Lemma head_bytes (b : list byte) ct :
  (((((b ++ Py.bytes ("HTTP/1.0 " ++ Py.str_int 200 ++ " " ++ responses 200
                        ++ Py.cr ++ Py.nl))
        ++ Py.bytes ("Server" ++ ": " ++ version_string E ++ Py.cr ++ Py.nl))
       ++ Py.bytes ("Date" ++ ": " ++ date_time_string E ++ Py.cr ++ Py.nl))
      ++ Py.bytes ("Content-type" ++ ": " ++ ct ++ Py.cr ++ Py.nl))
     ++ Py.bytes (Py.cr ++ Py.nl))
  = b ++ response_head E ct.
Proof. unfold response_head. now rewrite <- !app_assoc. Qed.

(** What every response starts with: the status line and the headers are
    collected, and [end_headers] writes them in one piece; [rest] is what
    do_GET does next. *)
Lemma respond_run {A} ct (rest : M Image Value A) w :
  bind (send_response E 200)
       (fun _ => bind (send_header E "Content-type" ct)
                      (fun _ => bind (end_headers E) (fun _ => rest))) w =
    match head_write E w with
    | None => rest (headed_state E w ct)
    | Some e =>
        (Raise e,
         mkState (trace w ++ [EvLogRequest 200]) (S (nwrite w))
                 (headers_buffer w ++ response_head E ct) (s_first w) (cam w) (stream w))
    end.
Proof.
  destruct w as [t n hb first c st].
  cbv [send_response send_response_only send_header end_headers flush_headers
       wfile_write emit get_headers_buffer set_headers_buffer bind ret
       head_write headed_state head_chunks map
       trace nwrite headers_buffer s_first cam stream].
  destruct (http09 E); [reflexivity|].
  rewrite head_bytes.
  destruct (res_write E n); [reflexivity|]. now app_norm.
Qed.

(** A head that cannot be written belongs to a request that carries an
    HTTP version. *)
Lemma head_write_fails_versioned w e : head_write E w = Some e -> http09 E = false.
Proof. unfold head_write. destruct (http09 E); [discriminate | reflexivity]. Qed.

Lemma head_write_ok w : res_write E (nwrite w) = None -> head_write E w = None.
Proof. unfold head_write. now destruct (http09 E). Qed.

(** The write of the response head fails: do_GET raises before the
    camera is touched. *)
Lemma serve_stream_head_fails session w e :
  head_write E w = Some e ->
  serve_stream E session w =
    (Raise e,
     mkState (trace w ++ [EvLogRequest 200]) (S (nwrite w))
             (headers_buffer w ++ stream_head E) (s_first w) (cam w) (stream w)).
Proof.
  intros Hw. unfold serve_stream. rewrite respond_run, Hw.
  unfold stream_head. now rewrite (head_write_fails_versioned _ _ Hw).
Qed.

(** [picam.PiCam(...)] raises: logged, nothing to stop. *)
Lemma serve_stream_ctor_raises session w e :
  head_write E w = None ->
  res_PiCam E = inl e ->
  serve_stream E session w =
    (Ok tt,
     mkState (trace w ++ [EvLogRequest 200]
                ++ map EvWrite (stream_head_chunks E w)
                ++ [EvSleep 1000; EvPiCam (inl e); EvPrint (exn_str e);
                    EvPrint done_streaming; EvPrint "(cam init problem)"])
             (if http09 E then nwrite w else S (nwrite w))
             (if http09 E then headers_buffer w else [])
             (s_first w) None (stream w)).
Proof.
  intros Hw Hc. unfold serve_stream. rewrite respond_run, Hw.
  unfold picam_PiCam, time_sleep, print, emit, get_cam, set_cam, try_except, bind,
    ret, raise, headed_state, stream_head_chunks, stream_content_type.
  st_simpl. rewrite Hc. st_simpl. app_norm. reflexivity.
Qed.

(** [picam.PiCam(...)] gives a false object: [Hey no camera!], not stopped. *)
Lemma serve_stream_no_camera session w c :
  head_write E w = None ->
  res_PiCam E = inr c ->
  cam_bool c = false ->
  serve_stream E session w =
    (Ok tt,
     add_events (opened_state E w c)
       [EvPrint "Hey no camera!"; EvPrint done_streaming; EvPrint "(cam init problem)"]).
Proof.
  intros Hw Hc Hb. unfold serve_stream. rewrite respond_run, Hw.
  unfold picam_PiCam, time_sleep, print, emit, get_cam, set_cam, try_except, bind,
    ret, raise, headed_state, stream_head_chunks, stream_content_type.
  st_simpl. rewrite Hc. st_simpl. rewrite Hb. st_simpl. rewrite Hb.
  unfold add_events, opened_state, stream_head_chunks, stream_content_type.
  st_simpl. app_norm. reflexivity.
Qed.

(** The camera is there: the session runs, then the camera is stopped,
    whatever the session did, unless it is still running. *)
Lemma serve_stream_opened session w c r1 w1 :
  head_write E w = None ->
  res_PiCam E = inr c ->
  cam_bool c = true ->
  session c (opened_state E w c) = (r1, w1) ->
  cam w1 = Some c ->
  serve_stream E session w =
    match r1 with
    | Ok _ => (stop_result E, add_events w1 [EvPrint done_streaming; EvStop])
    | Raise e =>
        (stop_result E,
         add_events w1 [EvPrint (exn_str e); EvPrint done_streaming; EvStop])
    | Timeout => (Timeout, w1)
    end.
Proof.
  intros Hw Hc Hb Hs Hcam. unfold serve_stream. rewrite respond_run, Hw.
  unfold picam_PiCam, cam_stop, time_sleep, print, emit, get_cam, set_cam,
    try_except, bind, ret, raise, headed_state.
  st_simpl. rewrite Hc. st_simpl. rewrite Hb. st_simpl. app_norm. st_simpl.
  unfold opened_state, stream_head_chunks, stream_content_type in Hs.
  cbn [app] in Hs. rewrite Hs.
  unfold stop_result, add_events.
  destruct r1; st_simpl; rewrite ?Hcam, ?Hb; try reflexivity;
    destruct (res_stop E); st_simpl; app_norm; reflexivity.
Qed.

(** The landing page: the head, then the page, no camera. *)
Lemma serve_mainPage_cases w :
  serve_mainPage E w =
    match head_write E w with
    | Some e =>
        (Raise e,
         mkState (trace w ++ [EvLogRequest 200]) (S (nwrite w))
                 (headers_buffer w ++ response_head E "text/html")
                 (s_first w) (cam w) (stream w))
    | None =>
        let w1 := headed_state E w "text/html" in
        match res_write E (nwrite w1) with
        | Some e =>
            (Raise e,
             mkState (trace w1) (S (nwrite w1)) (headers_buffer w1)
                     (s_first w) (cam w) (stream w))
        | None =>
            (Ok tt,
             mkState (trace w1 ++ [EvWrite (Py.bytes s_mainPage)])
                     (S (nwrite w1)) (headers_buffer w1)
                     (s_first w) (cam w) (stream w))
        end
    end.
Proof.
  unfold serve_mainPage. rewrite respond_run.
  destruct (head_write E w); [reflexivity|].
  unfold wfile_write. cbv zeta.
  destruct (res_write E (nwrite (headed_state E w "text/html"))); reflexivity.
Qed.

Lemma extends_weaken (p q : Event Image Value -> bool) w w' :
  (forall ev, p ev = true -> q ev = true) ->
  extends p w w' -> extends q w w'.
Proof.
  intros Hpq [Hc (d & Ht & Hd)]. split; [exact Hc|]. exists d. split; [exact Ht|].
  rewrite forallb_forall in *. auto.
Qed.

(** The session do_GET chooses only adds session events. *)
Lemma session_extends fuel path c w r w' :
  (if algostr path =? "direct" then streamDirect E fuel c
   else streamAlgo E fuel c (algostr path)) w = (r, w') ->
  extends session_event w w'.
Proof.
  destruct (algostr path =? "direct"); intros H.
  - apply streamDirect_extends in H. revert H. apply extends_weaken.
    intros ev Hev. unfold session_event. now rewrite Hev.
  - apply streamAlgo_extends in H. revert H. apply extends_weaken.
    intros ev Hev. unfold session_event. rewrite Hev. apply orb_true_r.
Qed.

Lemma session_event_not_stop (ev : Event Image Value) :
  session_event ev = true -> is_stop ev = false.
Proof. destruct ev; cbn; congruence. Qed.

Lemma session_event_not_open (ev : Event Image Value) :
  session_event ev = true -> is_open ev = false.
Proof. destruct ev; cbn; congruence. Qed.

Lemma session_stops d : forallb (@session_event Image Value) d = true -> stops d = 0.
Proof.
  intros H. unfold stops.
  now rewrite (filter_excluded _ _ d session_event_not_stop H).
Qed.

Lemma session_opens d : forallb (@session_event Image Value) d = true -> opens d = 0.
Proof.
  intros H. unfold opens.
  now rewrite (filter_excluded _ _ d session_event_not_open H).
Qed.

(** *** The wire *)

Lemma incomplete_nil : incomplete E [].
Proof. exists 0, []. unfold part_writes. split; [destruct (http09 E); lia | reflexivity]. Qed.

Lemma incomplete_boundary : incomplete E [jpgboundary].
Proof.
  exists 1, []. unfold part_writes, part_chunks.
  split; destruct (http09 E); first [lia | reflexivity].
Qed.

Lemma incomplete_headers (jpg : list byte) :
  http09 E = false -> incomplete E [jpgboundary; part_headers (length jpg)].
Proof.
  intros Hv. exists 2, jpg. unfold part_writes, part_chunks. rewrite Hv.
  split; [lia | reflexivity].
Qed.

(** The session starts with an empty header buffer when the request did. *)
Lemma opened_state_buffer w c :
  headers_buffer w = [] -> headers_buffer (opened_state E w c) = [].
Proof. intros Hb. cbn. now destruct (http09 E). Qed.

Lemma wire_stream_head w :
  wire (map (@EvWrite Image Value) (stream_head_chunks E w)) = stream_head_chunks E w.
Proof. apply wire_map_EvWrite. Qed.

Lemma stream_head_bytes w :
  headers_buffer w = [] -> concat (stream_head_chunks E w) = stream_head E.
Proof.
  intros Hb. unfold stream_head_chunks, head_chunks, stream_head. rewrite Hb.
  destruct (http09 E); cbn; [reflexivity | now rewrite app_nil_r].
Qed.

Lemma concat_parts jpgs :
  concat (flat_map (part_chunks E) jpgs) = concat (map (multipart_part E) jpgs).
Proof.
  unfold multipart_part.
  induction jpgs as [|j l IH]; cbn [flat_map map concat]; [reflexivity|].
  now rewrite concat_app, IH.
Qed.

Lemma session_of_algo d :
  forallb (@algo_event Image Value) d = true -> forallb session_event d = true.
Proof.
  induction d as [|ev d IH]; cbn; [reflexivity|].
  intros H. apply andb_prop in H as [H1 H2]. unfold session_event at 1.
  rewrite H1, orb_true_r. cbn. auto.
Qed.

Lemma part_chunks_length jpg : length (part_chunks E jpg) = part_writes E.
Proof. unfold part_chunks, part_writes. now destruct (http09 E). Qed.

(** One iteration of streamAlgo either goes on, having written the whole
    part of its frame (or nothing, when the frame has no JPEG), or ends
    the loop, having written at most the start of a part. *)
Lemma streamAlgo_body_wire c k sel w r w1 :
  headers_buffer w = [] ->
  streamAlgo_body E c k sel w = (r, w1) ->
  (r = Ok Next /\ headers_buffer w1 = [] /\
   wire (trace w1) = wire (trace w) ++ chunks_of E (algo_jpeg E sel) k)
  \/
  (r <> Ok Next /\ r <> Timeout /\
   exists tail, incomplete E tail /\ wire (trace w1) = wire (trace w) ++ tail).
Proof.
  intros Hb H. unfold chunks_of, algo_jpeg, part_chunks, framed_chunks.
  unfold_handler. cbn in H.
  rewrite Hb in H.
  repeat (case_step; cbn in H); inversion H; subst; clear H;
    try absurd_negb;
    st_simpl; app_norm; rewrite wire_app;
    first
      [ left; split; [reflexivity|]; split; [reflexivity|]; f_equal; reflexivity
      | right; split; [discriminate|]; split; [discriminate|];
        first
          [ exists []; split; [apply incomplete_nil | f_equal; reflexivity]
          | exists [jpgboundary]; split; [apply incomplete_boundary | f_equal; reflexivity]
          | match goal with
            | Hx : _ = inr (true, ?j) |- _ =>
                exists [jpgboundary; part_headers (length j)];
                split; [apply incomplete_headers; assumption | f_equal; reflexivity]
            end ] ].
Qed.

Lemma streamAlgo_while_wire fuel c sel : forall k w r w',
  headers_buffer w = [] ->
  streamAlgo_while E fuel c k sel w = (r, w') ->
  exists n tail,
    wire (trace w') =
      wire (trace w) ++ flat_map (chunks_of E (algo_jpeg E sel)) (seq k n) ++ tail /\
    incomplete E tail.
Proof.
  induction fuel as [|fuel IH]; intros k w r w' Hb H; cbn in H.
  - inversion H; subst. exists 0, []. cbn. rewrite app_nil_r.
    split; [reflexivity | apply incomplete_nil].
  - unfold bind at 1 in H.
    destruct (streamAlgo_body E c k sel w) as [r1 w1] eqn:Hbody.
    destruct (streamAlgo_body_wire _ _ _ _ _ _ Hb Hbody)
      as [(-> & Hb1 & Hw1) | (Hn & Ht & tail & Hinc & Hw1)].
    + destruct (IH _ _ _ _ Hb1 H) as (n & tail & Hw' & Hinc).
      exists (S n), tail. split; [|exact Hinc].
      rewrite Hw', Hw1. cbn [seq flat_map]. now rewrite <- !app_assoc.
    + exists 0, tail. split; [|exact Hinc]. cbn.
      destruct r1 as [[]|e|]; try congruence; inversion H; subst; exact Hw1.
Qed.

(** *** streamDirect and its buffer *)

(** Into a fresh or reset buffer the camera writes the frame and nothing
    else. *)
Lemma BytesIO_write_new frame :
  BytesIO.write frame BytesIO.new = BytesIO.mk frame (length frame).
Proof.
  unfold BytesIO.write, BytesIO.new. cbn. now rewrite skipn_nil, app_nil_r.
Qed.

(** [seek(0)] then [truncate()] empties any buffer. *)
Lemma BytesIO_reset s : BytesIO.truncate (BytesIO.seek 0 s) = BytesIO.new.
Proof. reflexivity. Qed.

(** One iteration of the [for] loop whose writes succeed: the part
    carries what the buffer holds after the capture, and the buffer is
    empty again when the next iteration starts. *)
Lemma streamDirect_for_sends fuel c k w frame :
  res_capture E k = GenYield frame ->
  (forall i, i < part_writes E -> res_write E (i + nwrite w) = None) ->
  headers_buffer w = [] ->
  streamDirect_for E (S fuel) c k w =
    streamDirect_for E fuel c (S k)
      (mkState (trace w ++ [EvCapture]
                  ++ map EvWrite
                       (part_chunks E (BytesIO.getvalue (BytesIO.write frame (stream w)))))
               (part_writes E + nwrite w) [] (s_first w) (cam w) BytesIO.new).
Proof.
  intros Hc Hw Hb. cbn [streamDirect_for].
  unfold part_writes, part_chunks, framed_chunks in *.
  unfold capture_next, send_header, end_headers, flush_headers, wfile_write, emit,
    get_headers_buffer, set_headers_buffer, get_stream, set_stream, bind, ret.
  destruct (http09 E).
  - pose proof (Hw 0 ltac:(lia)) as H0. pose proof (Hw 1 ltac:(lia)) as H1.
    cbn [Nat.add] in H0, H1.
    st_simpl. rewrite Hc. st_simpl. rewrite H0. st_simpl. rewrite H1. st_simpl.
    rewrite Hb. app_norm. reflexivity.
  - pose proof (Hw 0 ltac:(lia)) as H0. pose proof (Hw 1 ltac:(lia)) as H1.
    pose proof (Hw 2 ltac:(lia)) as H2. cbn [Nat.add] in H0, H1, H2.
    st_simpl. rewrite Hc. st_simpl. rewrite H0. st_simpl. rewrite H1. st_simpl.
    rewrite H2. st_simpl. rewrite Hb. app_norm. reflexivity.
Qed.

(** The same, for a request with an HTTP version and for one without. *)
Lemma streamDirect_for_sends3 fuel c k w frame :
  http09 E = false ->
  res_capture E k = GenYield frame ->
  res_write E (nwrite w) = None ->
  res_write E (S (nwrite w)) = None ->
  res_write E (S (S (nwrite w))) = None ->
  headers_buffer w = [] ->
  streamDirect_for E (S fuel) c k w =
    streamDirect_for E fuel c (S k)
      (mkState (trace w ++ [EvCapture]
                  ++ map EvWrite
                       (part_chunks E (BytesIO.getvalue (BytesIO.write frame (stream w)))))
               (part_writes E + nwrite w) [] (s_first w) (cam w) BytesIO.new).
Proof.
  intros Hv Hc H0 H1 H2 Hb. apply streamDirect_for_sends; [exact Hc| |exact Hb].
  unfold part_writes. rewrite Hv. intros [|[|[|i]]] Hi; cbn [Nat.add]; auto; lia.
Qed.

Lemma streamDirect_for_sends2 fuel c k w frame :
  http09 E = true ->
  res_capture E k = GenYield frame ->
  res_write E (nwrite w) = None ->
  res_write E (S (nwrite w)) = None ->
  headers_buffer w = [] ->
  streamDirect_for E (S fuel) c k w =
    streamDirect_for E fuel c (S k)
      (mkState (trace w ++ [EvCapture]
                  ++ map EvWrite
                       (part_chunks E (BytesIO.getvalue (BytesIO.write frame (stream w)))))
               (part_writes E + nwrite w) [] (s_first w) (cam w) BytesIO.new).
Proof.
  intros Hv Hc H0 H1 Hb. apply streamDirect_for_sends; [exact Hc| |exact Hb].
  unfold part_writes. rewrite Hv. intros [|[|i]] Hi; cbn [Nat.add]; auto; lia.
Qed.

Lemma streamDirect_for_wire fuel c : forall k w r w',
  headers_buffer w = [] ->
  stream w = BytesIO.new ->
  streamDirect_for E fuel c k w = (r, w') ->
  exists n tail,
    wire (trace w') =
      wire (trace w) ++ flat_map (chunks_of E (direct_jpeg E)) (seq k n) ++ tail /\
    incomplete E tail.
Proof.
  induction fuel as [|fuel IH]; intros k w r w' Hb Hs H.
  - inversion H; subst. exists 0, []. cbn. rewrite app_nil_r.
    split; [reflexivity | apply incomplete_nil].
  - destruct (res_capture E k) as [frame| |e] eqn:Hc.
    + assert (Hsent : forall w1, headers_buffer w1 = [] -> stream w1 = BytesIO.new ->
                streamDirect_for E fuel c (S k) w1 = (r, w') ->
                wire (trace w1) = wire (trace w) ++ chunks_of E (direct_jpeg E) k ->
                exists n tail,
                  wire (trace w') =
                    wire (trace w) ++ flat_map (chunks_of E (direct_jpeg E)) (seq k n) ++ tail /\
                  incomplete E tail).
      { intros w1 Hb1 Hs1 H1 Hw1. apply IH in H1; [|exact Hb1|exact Hs1].
        destruct H1 as (n & tail & Hw & Hinc). exists (S n), tail.
        split; [|exact Hinc]. rewrite Hw, Hw1. cbn [seq flat_map].
        now rewrite <- !app_assoc. }
      assert (Hpart : forall w0 : State Image Value,
                wire (trace w0 ++ [EvCapture]
                        ++ map EvWrite
                             (part_chunks E (BytesIO.getvalue (BytesIO.write frame BytesIO.new))))
                = wire (trace w0) ++ chunks_of E (direct_jpeg E) k).
      { intros w0. rewrite !wire_app, wire_map_EvWrite, BytesIO_write_new.
        unfold chunks_of, direct_jpeg. rewrite Hc. reflexivity. }
      destruct (http09 E) eqn:Hv.
      * destruct (res_write E (nwrite w)) as [e0|] eqn:H0;
          [|destruct (res_write E (S (nwrite w))) as [e1|] eqn:H1].
        3: { rewrite (streamDirect_for_sends2 _ _ _ _ _ Hv Hc H0 H1 Hb) in H.
             apply Hsent in H; [exact H|reflexivity|reflexivity|].
             st_simpl. rewrite Hs. apply Hpart. }
        all: cbn [streamDirect_for] in H;
          unfold capture_next, send_header, end_headers, flush_headers, wfile_write, emit,
            get_headers_buffer, set_headers_buffer, get_stream, set_stream, bind, ret in H;
          rewrite Hv in H;
          st_simpl in H; rewrite Hc in H; st_simpl in H; rewrite H0 in H; st_simpl in H;
          rewrite ?H1 in H; st_simpl in H;
          rewrite ?Hs, ?BytesIO_write_new, ?Hb in H;
          inversion H; subst; clear H; st_simpl; app_norm; rewrite wire_app;
          exists 0.
        -- exists []. split; [f_equal; reflexivity | apply incomplete_nil].
        -- exists [jpgboundary]. split; [f_equal; reflexivity | apply incomplete_boundary].
      * destruct (res_write E (nwrite w)) as [e0|] eqn:H0;
          [|destruct (res_write E (S (nwrite w))) as [e1|] eqn:H1;
            [|destruct (res_write E (S (S (nwrite w)))) as [e2|] eqn:H2]].
        4: { rewrite (streamDirect_for_sends3 _ _ _ _ _ Hv Hc H0 H1 H2 Hb) in H.
             apply Hsent in H; [exact H|reflexivity|reflexivity|].
             st_simpl. rewrite Hs. apply Hpart. }
        all: cbn [streamDirect_for] in H;
          unfold capture_next, send_header, end_headers, flush_headers, wfile_write, emit,
            get_headers_buffer, set_headers_buffer, get_stream, set_stream, bind, ret in H;
          rewrite Hv in H;
          st_simpl in H; rewrite Hc in H; st_simpl in H; rewrite H0 in H; st_simpl in H;
          rewrite ?H1 in H; st_simpl in H; rewrite ?H2 in H; st_simpl in H;
          rewrite ?Hs, ?BytesIO_write_new, ?Hb in H;
          inversion H; subst; clear H; st_simpl; app_norm; rewrite wire_app;
          exists 0.
        -- exists []. split; [f_equal; reflexivity | apply incomplete_nil].
        -- exists [jpgboundary]. split; [f_equal; reflexivity | apply incomplete_boundary].
        -- exists [jpgboundary; part_headers (length frame)].
           split; [|apply incomplete_headers; exact Hv].
           f_equal.
    + cbn [streamDirect_for] in H.
      unfold capture_next, emit, bind, ret in H. st_simpl in H. rewrite Hc in H.
      inversion H; subst; clear H. exists 0, []. st_simpl. rewrite wire_app.
      split; [f_equal | apply incomplete_nil].
    + cbn [streamDirect_for] in H.
      unfold capture_next, emit, bind, raise in H. st_simpl in H. rewrite Hc in H.
      inversion H; subst; clear H. exists 0, []. st_simpl. rewrite wire_app.
      split; [f_equal | apply incomplete_nil].
Qed.

Lemma streamAlgo_wire fuel c sel w r w' :
  headers_buffer w = [] ->
  streamAlgo E fuel c sel w = (r, w') ->
  exists n tail,
    wire (trace w') =
      wire (trace w) ++ flat_map (chunks_of E (algo_jpeg E sel)) (seq 0 n) ++ tail /\
    incomplete E tail.
Proof.
  intros Hb H. unfold streamAlgo, print, cam_start, emit, bind, ret, raise in H.
  st_simpl in H. destruct (res_start E).
  - inversion H; subst; clear H. exists 0, []. st_simpl. app_norm.
    rewrite wire_app. split; [f_equal | apply incomplete_nil].
  - apply streamAlgo_while_wire in H; [|exact Hb].
    destruct H as (n & tail & Hw & Hinc). exists n, tail. split; [|exact Hinc].
    rewrite Hw. st_simpl. app_norm. rewrite wire_app. cbn [wire flat_map app].
    now rewrite app_nil_r.
Qed.

Lemma streamDirect_wire fuel c w r w' :
  headers_buffer w = [] ->
  streamDirect E fuel c w = (r, w') ->
  exists n tail,
    wire (trace w') =
      wire (trace w) ++ flat_map (chunks_of E (direct_jpeg E)) (seq 0 n) ++ tail /\
    incomplete E tail.
Proof.
  intros Hb H. unfold streamDirect, try_finally in H. unfold bind at 1 2 in H.
  unfold print, emit, set_stream in H. st_simpl in H.
  match type of H with context [streamDirect_for E fuel c 0 ?w0] =>
    destruct (streamDirect_for E fuel c 0 w0) as [r1 w1] eqn:Hf end.
  apply streamDirect_for_wire in Hf; [|exact Hb|reflexivity].
  destruct Hf as (n & tail & Hw & Hinc). exists n, tail. split; [|exact Hinc].
  st_simpl in Hw. rewrite wire_app in Hw. cbn [wire flat_map app] in Hw.
  rewrite app_nil_r in Hw. rewrite <- Hw.
  unfold get_stream, set_stream, bind, ret, raise in H.
  destruct r1; inversion H; subst; reflexivity.
Qed.

Lemma session_wire fuel path c w r w' :
  headers_buffer w = [] ->
  (if algostr path =? "direct" then streamDirect E fuel c
   else streamAlgo E fuel c (algostr path)) w = (r, w') ->
  exists n tail,
    wire (trace w') =
      wire (trace w) ++ flat_map (chunks_of E (session_jpeg E path)) (seq 0 n) ++ tail /\
    incomplete E tail.
Proof.
  unfold session_jpeg. destruct (algostr path =? "direct"); intros Hb H.
  - eapply streamDirect_wire; eassumption.
  - eapply streamAlgo_wire; eassumption.
Qed.

(** *** C1 *)

(** C1: whenever do_GET is over, [cam.stop()] has been called exactly as
    many times as [picam.PiCam(...)] gave a camera, which is once when the
    request acquires the camera and never otherwise: on every way out of
    the session the camera that was opened is stopped once, and when no
    camera was opened nothing is stopped. *)
Theorem stop_once_per_open fuel path w r w' :
  do_GET E fuel path w = (r, w') ->
  r <> Timeout ->
  exists d,
    trace w' = trace w ++ d /\
    stops d = opens d /\
    opens d = (if acquires E path w then 1 else 0).
Proof.
  unfold do_GET, acquires. intros H Hr.
  destruct (is_stream_path path); cbn [andb].
  - destruct (head_write E w) as [e|] eqn:Hw.
    { rewrite (serve_stream_head_fails _ _ _ Hw) in H. inversion H; subst; clear H.
      eexists. split; [reflexivity|]. split; reflexivity. }
    destruct (res_PiCam E) as [e|c] eqn:Hc.
    { rewrite (serve_stream_ctor_raises _ _ _ Hw Hc) in H. inversion H; subst; clear H.
      eexists. split; [reflexivity|].
      unfold stream_head_chunks, head_chunks. destruct (http09 E); split; reflexivity. }
    destruct (cam_bool c) eqn:Hb.
    + match type of H with serve_stream E ?s w = _ =>
        destruct (s c (opened_state E w c)) as [r1 w1] eqn:Hs end.
      pose proof (session_extends _ _ _ _ _ _ Hs) as [Hcam (d & Ht & Hd)].
      rewrite (serve_stream_opened _ _ _ _ _ Hw Hc Hb Hs Hcam) in H.
      pose proof (session_stops d Hd) as Hst. pose proof (session_opens d Hd) as Hop.
      destruct r1 as [[]|e|]; inversion H; subst; clear H; try congruence.
      * exists ([EvLogRequest 200] ++ map EvWrite (stream_head_chunks E w)
                 ++ [EvSleep 1000; EvPiCam (inr c)] ++ d ++ [EvPrint done_streaming; EvStop]).
        cbn [add_events trace]. rewrite Ht. cbn [opened_state trace].
        split; [now rewrite <- !app_assoc|].
        rewrite !stops_app, !opens_app, stops_writes, opens_writes, Hst, Hop.
        cbn. rewrite Hb. cbn. split; reflexivity.
      * exists ([EvLogRequest 200] ++ map EvWrite (stream_head_chunks E w)
                 ++ [EvSleep 1000; EvPiCam (inr c)] ++ d
                ++ [EvPrint (exn_str e); EvPrint done_streaming; EvStop]).
        cbn [add_events trace]. rewrite Ht. cbn [opened_state trace].
        split; [now rewrite <- !app_assoc|].
        rewrite !stops_app, !opens_app, stops_writes, opens_writes, Hst, Hop.
        cbn. rewrite Hb. cbn. split; reflexivity.
    + rewrite (serve_stream_no_camera _ _ _ Hw Hc Hb) in H. inversion H; subst; clear H.
      eexists. cbn [add_events opened_state trace].
      split; [rewrite <- !app_assoc; reflexivity|].
      unfold stream_head_chunks, head_chunks. destruct (http09 E);
        cbn; rewrite Hb; split; reflexivity.
  - rewrite serve_mainPage_cases in H. cbv zeta in H.
    destruct (head_write E w);
      [|destruct (res_write E (nwrite (headed_state E w "text/html")))];
      inversion H; subst; clear H; cbn [headed_state trace]; eexists;
      (split; [rewrite <- ?app_assoc; reflexivity|]);
      unfold head_chunks; destruct (http09 E); split; reflexivity.
Qed.

(** *** Runs of successful iterations *)

(** While every frame gets its JPEG and the client takes every write, the
    loop goes on, one part and one call of processFrame per iteration. *)
Lemma streamAlgo_while_sends c sel n : forall fuel k w,
  headers_buffer w = [] ->
  (forall i, res_write E i = None) ->
  (forall j, k <= j < k + n -> algo_jpeg E sel j <> None) ->
  exists w1 d jpgs,
    streamAlgo_while E (n + fuel) c k sel w = streamAlgo_while E fuel c (k + n) sel w1 /\
    trace w1 = trace w ++ d /\
    headers_buffer w1 = [] /\
    cam w1 = cam w /\
    map (algo_jpeg E sel) (seq k n) = map Some jpgs /\
    wire d = flat_map (part_chunks E) jpgs /\
    process_calls d = n /\
    forallb algo_event d = true.
Proof.
  induction n as [|n IH]; intros fuel k w Hb Hw Hj.
  - exists w, [], []. rewrite Nat.add_0_r, app_nil_r. cbn.
    repeat split; try reflexivity. exact Hb.
  - assert (Hk : algo_jpeg E sel k <> None) by (apply Hj; lia).
    unfold algo_jpeg in Hk.
    destruct (res_next E k) as [?|camframe] eqn:Hn; [congruence|].
    destruct (res_processFrame E k camframe sel) as [?|[value frame]] eqn:Hp; [congruence|].
    destruct (res_imencode E k ".jpg" frame s_jpgParam) as [?|[[] jpg]] eqn:He;
      try congruence.
    pose proof (body_sends c k sel w _ _ _ _ Hn Hp He (fun i _ => Hw _) Hb) as Hbody.
    match type of Hbody with _ = (_, ?w0) => set (w1 := w0) in * end.
    destruct (IH fuel (S k) w1) as (w2 & d & jpgs & Hrun & Ht & Hb2 & Hc2 & Hm & Hwire & Hpc & Hev).
    { reflexivity. } { exact Hw. } { intros j Hlt. apply Hj. lia. }
    exists w2, ([EvNext; EvProcess camframe sel] ++ comm_events E value
                 ++ [EvEncode frame] ++ first_events (s_first w) jpg
                 ++ map EvWrite (part_chunks E jpg) ++ [EvSleep 50] ++ d), (jpg :: jpgs).
    split.
    { cbn [Nat.add streamAlgo_while]. unfold bind at 1. rewrite Hbody.
      rewrite Hrun. f_equal. lia. }
    split. { rewrite Ht. subst w1. st_simpl. now app_norm. }
    split; [exact Hb2|]. split; [exact Hc2|].
    split. { cbn [seq map]. rewrite Hm. unfold algo_jpeg. now rewrite Hn, Hp, He. }
    unfold comm_events, first_events.
    split; [|split].
    + cbn [flat_map]. rewrite <- Hwire. unfold part_chunks, framed_chunks.
      destruct (http09 E); (destruct (s_comm E); [destruct value|]);
        destruct (s_first w); reflexivity.
    + rewrite <- Hpc. unfold part_chunks, framed_chunks.
      destruct (http09 E); (destruct (s_comm E); [destruct value|]);
        destruct (s_first w); reflexivity.
    + unfold part_chunks, framed_chunks.
      destruct (http09 E); (destruct (s_comm E); [destruct value|]);
        destruct (s_first w); cbn; exact Hev.
Qed.

(** *** C3 *)


(** *** C4 *)

Lemma logged_algo_exception_events e :
  logged (@algo_exception_events Image Value e) = algo_exception_events e.
Proof. reflexivity. Qed.

(** C4: in algo mode, when processFrame raises in iteration [S n] of a
    stream that is otherwise successful (the client takes every write, the
    camera is there, every earlier frame got its JPEG), do_GET returns for
    any fuel above [n]; exactly [n] parts are on the wire and none comes
    after; processFrame was called [S n] times, once per frame and not
    again for the failing one; the failure is printed and its traceback
    follows; and the camera is stopped once. *)
Theorem process_failure_ends_session fuel path w n c camframe e :
  headers_buffer w = [] ->
  is_stream_path path = true ->
  (algostr path =? "direct") = false ->
  (forall i, res_write E i = None) ->
  res_PiCam E = inr c ->
  cam_bool c = true ->
  res_start E = None ->
  (forall j, j < n -> algo_jpeg E (algostr path) j <> None) ->
  res_next E n = inr camframe ->
  res_processFrame E n camframe (algostr path) = inl e ->
  n < fuel ->
  exists w' jpgs log,
    do_GET E fuel path w = (stop_result E, w') /\
    map (algo_jpeg E (algostr path)) (seq 0 n) = map Some jpgs /\
    length jpgs = n /\
    wire_bytes (trace w') =
      wire_bytes (trace w) ++ stream_head E ++ concat (map (multipart_part E) jpgs) /\
    process_calls (trace w') = process_calls (trace w) + S n /\
    logged (trace w') =
      logged (trace w) ++ log ++ algo_exception_events e ++ [EvPrint done_streaming] /\
    stops (trace w') = stops (trace w) + 1.
Proof.
  intros Hhb Hp Hd Hw Hc Hb Hst Hj Hn Hpf Hfuel.
  set (sel := algostr path) in *.
  set (w0 := add_events (opened_state E w c) [EvPrint (sel ++ " algo streaming"); EvStart]).
  assert (Hb0 : headers_buffer w0 = []) by (apply (opened_state_buffer w c Hhb)).
  destruct (streamAlgo_while_sends c sel n (fuel - n) 0 w0 Hb0 Hw)
    as (w1 & d & jpgs & Hrun & Ht & Hb1 & Hc1 & Hm & Hwire & Hpc & Hev).
  { intros j Hlt. apply Hj. lia. }
  replace (n + (fuel - n)) with fuel in Hrun by lia.
  destruct (fuel - n) as [|f] eqn:Hf; [lia|].
  cbn [streamAlgo_while Nat.add] in Hrun. unfold bind at 1 in Hrun.
  rewrite (body_process_fails c n sel w1 _ _ Hn Hpf) in Hrun.
  unfold ret in Hrun.
  match type of Hrun with _ = (_, ?wf) => set (w2 := wf) in * end.
  assert (Hs : streamAlgo E fuel c sel (opened_state E w c) = (Ok tt, w2)).
  { unfold streamAlgo, print, cam_start, emit. unfold bind at 1 2. st_simpl.
    rewrite Hst. unfold bind at 1, ret at 1. st_simpl. app_norm. exact Hrun. }
  assert (Hcam : cam w2 = Some c).
  { subst w2. st_simpl. rewrite Hc1. reflexivity. }
  exists (add_events w2 [EvPrint done_streaming; EvStop]), jpgs,
    ([EvPrint (sel ++ " algo streaming")] ++ logged d).
  split.
  { unfold do_GET. rewrite Hp. fold sel. rewrite Hd.
    rewrite (serve_stream_opened _ w c _ _ (head_write_ok _ (Hw _)) Hc Hb Hs Hcam).
    reflexivity. }
  split; [exact Hm|].
  split. { apply (f_equal (@length _)) in Hm. rewrite !length_map, length_seq in Hm. auto. }
  assert (Htr : trace w2 =
                trace w ++ [EvLogRequest 200] ++ map EvWrite (stream_head_chunks E w)
                  ++ [EvSleep 1000; EvPiCam (inr c);
                      EvPrint (sel ++ " algo streaming"); EvStart]
                  ++ d ++ [EvNext; EvProcess camframe sel] ++ algo_exception_events e).
  { subst w2. st_simpl. rewrite Ht. subst w0. cbn [add_events opened_state trace].
    now rewrite <- !app_assoc. }
  cbn [add_events trace]. rewrite Htr.
  split; [|split; [|split]].
  - unfold wire_bytes. rewrite !wire_app, wire_stream_head, Hwire.
    cbn [wire flat_map app algo_exception_events].
    rewrite !app_nil_r, !concat_app, (stream_head_bytes _ Hhb), concat_parts.
    reflexivity.
  - rewrite !process_calls_app, process_calls_writes, Hpc. cbn. lia.
  - rewrite !logged_app, logged_writes. rewrite logged_algo_exception_events.
    cbn [logged filter is_log app]. now app_norm.
  - rewrite !stops_app, stops_writes. rewrite (session_stops d (session_of_algo d Hev)).
    cbn. lia.
Qed.

(** *** C5 *)

(** C5: in algo mode, an iteration whose imencode gives a false [rc]
    attempts no write, logs nothing and hands over to the next iteration;
    and an iteration after which the loop goes on has had no failure but,
    possibly, that one: the frame was pulled, processed and encoded
    without an exception and, when [rc] was true, the writes of its part
    succeeded. *)
Theorem encode_failure_skips_frame c k sel w :
  (forall fuel camframe value frame jpg,
     res_next E k = inr camframe ->
     res_processFrame E k camframe sel = inr (value, frame) ->
     res_imencode E k ".jpg" frame s_jpgParam = inr (false, jpg) ->
     exists w1,
       streamAlgo_body E c k sel w = (Ok Next, w1) /\
       wire (trace w1) = wire (trace w) /\
       nwrite w1 = nwrite w /\
       headers_buffer w1 = headers_buffer w /\
       logged (trace w1) = logged (trace w) /\
       streamAlgo_while E (S fuel) c k sel w = streamAlgo_while E fuel c (S k) sel w1)
  /\
  (forall r w1,
     streamAlgo_body E c k sel w = (r, w1) ->
     r = Ok Next ->
     exists camframe value frame rc jpg,
       res_next E k = inr camframe /\
       res_processFrame E k camframe sel = inr (value, frame) /\
       res_imencode E k ".jpg" frame s_jpgParam = inr (rc, jpg) /\
       (rc = true ->
        forall i, i < length (part_chunks E jpg) ->
                  res_write E (i + nwrite w) = None)).
Proof.
  split.
  - intros fuel camframe value frame jpg Hn Hp He.
    pose proof (body_encode_skips c k sel w _ _ _ _ Hn Hp He) as Hbody.
    eexists. split; [exact Hbody|]. st_simpl.
    rewrite wire_app, logged_app. unfold comm_events.
    split; [|split; [reflexivity|split; [reflexivity|split]]].
    + destruct (s_comm E); [destruct value|]; cbn; now rewrite app_nil_r.
    + destruct (s_comm E); [destruct value|]; cbn; now rewrite app_nil_r.
    + cbn [streamAlgo_while]. unfold bind at 1. now rewrite Hbody.
  - intros r w1 H Hr. unfold_handler. cbn in H.
    repeat (case_step; cbn in H); inversion H; subst; clear H;
      try discriminate; try absurd_negb;
      do 5 eexists;
      (split; [first [reflexivity | eassumption]|]);
      (split; [first [reflexivity | eassumption]|]);
      (split; [first [reflexivity | eassumption]|]);
      intros Hrc; first
        [ discriminate
        | subst; absurd_negb
        | rewrite part_chunks_length; unfold part_writes;
          match goal with Hx : http09 E = _ |- _ => rewrite Hx end;
          intros [|[|[|?]]] Hi; cbn [Nat.add]; first [assumption | lia] ].
Qed.

(** *** C6 *)

Lemma direct_event_not_comm (ev : Event Image Value) :
  direct_event ev = true -> is_comm ev = false.
Proof. destruct ev; cbn; congruence. Qed.

(** C6: with [s_comm] set, an iteration of streamAlgo whose frame has
    been processed calls updateVisionState("Acquired") and then
    UpdateTarget(value) when a value was detected, and only
    updateVisionState("Searching") when none was; a request served in
    direct mode makes no call on [s_comm]. *)
Theorem comm_published_in_algo_only :
  (forall c k sel w camframe value frame r w1 cm,
     s_comm E = Some cm ->
     res_next E k = inr camframe ->
     res_processFrame E k camframe sel = inr (value, frame) ->
     streamAlgo_body E c k sel w = (r, w1) ->
     comm_calls (trace w1) =
       comm_calls (trace w) ++
       match value with
       | Some v => [EvState "Acquired"; EvTarget v]
       | None => [EvState "Searching"]
       end)
  /\
  (forall fuel path w r w',
     is_stream_path path = true ->
     (algostr path =? "direct") = true ->
     do_GET E fuel path w = (r, w') ->
     comm_calls (trace w') = comm_calls (trace w)).
Proof.
  split.
  - intros c k sel w camframe value frame r w1 cm Hcm Hn Hp H.
    unfold_handler. cbn in H. rewrite Hn in H. cbn in H. rewrite Hp in H. cbn in H.
    rewrite Hcm in H.
    destruct value; cbn in H;
      repeat (case_step; cbn in H); inversion H; subst; clear H;
      st_simpl; app_norm; rewrite comm_calls_app; reflexivity.
  - intros fuel path w r w' Hp Hd H. unfold do_GET in H. rewrite Hp, Hd in H.
    destruct (head_write E w) as [e|] eqn:Hw.
    { rewrite (serve_stream_head_fails _ _ _ Hw) in H. inversion H; subst; clear H.
      st_simpl. rewrite comm_calls_app. cbn. now rewrite app_nil_r. }
    destruct (res_PiCam E) as [e|c] eqn:Hc.
    { rewrite (serve_stream_ctor_raises _ _ _ Hw Hc) in H. run_eq H.
      st_simpl. rewrite !comm_calls_app, comm_calls_writes. cbn. now rewrite app_nil_r. }
    destruct (cam_bool c) eqn:Hb.
    + destruct (streamDirect E fuel c (opened_state E w c)) as [r1 w1] eqn:Hs.
      pose proof (streamDirect_extends _ _ _ _ _ Hs) as [Hcam (d & Ht & Hd')].
      match type of H with serve_stream E ?s w = _ =>
        rewrite (serve_stream_opened s _ _ _ _ Hw Hc Hb Hs Hcam) in H end.
      assert (Hw1 : comm_calls (trace w1) = comm_calls (trace w)).
      { rewrite Ht. cbn [opened_state trace].
        rewrite !comm_calls_app, comm_calls_writes.
        unfold comm_calls at 4.
        rewrite (filter_excluded _ _ d direct_event_not_comm Hd'). cbn.
        now rewrite !app_nil_r. }
      destruct r1 as [[]|e|]; inversion H; subst; clear H;
        cbn [add_events trace]; rewrite ?comm_calls_app; cbn; rewrite ?app_nil_r;
        exact Hw1.
    + rewrite (serve_stream_no_camera _ _ _ Hw Hc Hb) in H. run_eq H.
      cbn [add_events opened_state trace]. rewrite !comm_calls_app, comm_calls_writes.
      cbn. now rewrite !app_nil_r.
Qed.

(** *** C7 *)

(** C7, as the code has it: [cam.stop()] is called outside any [try].  In
    a request that acquired the camera and is over, the call is the last
    thing do_GET does: do_GET raises the exception of the call to its
    caller when the call raises, and returns normally when it returns. *)
Theorem stop_failure_propagates fuel path w r w' :
  acquires E path w = true ->
  do_GET E fuel path w = (r, w') ->
  r <> Timeout ->
  (forall e, res_stop E = Some e -> r = Raise e) /\
  (res_stop E = None -> r = Ok tt) /\
  exists t, trace w' = t ++ [EvStop].
Proof.
  unfold acquires, do_GET. intros Ha H Hr.
  destruct (is_stream_path path); [|discriminate]. cbn [andb] in Ha.
  destruct (head_write E w) as [e|] eqn:Hw; [discriminate|].
  destruct (res_PiCam E) as [e|c] eqn:Hc; [discriminate|].
  match type of H with serve_stream E ?s w = _ =>
    destruct (s c (opened_state E w c)) as [r1 w1] eqn:Hs end.
  pose proof (session_extends _ _ _ _ _ _ Hs) as [Hcam _].
  rewrite (serve_stream_opened _ _ _ _ _ Hw Hc Ha Hs Hcam) in H.
  unfold stop_result in H.
  destruct r1 as [[]|e1|]; inversion H; subst; clear H; try congruence;
    (split; [intros e He; now rewrite He|]);
    (split; [intros He; now rewrite He|]);
    cbn [add_events trace].
  - exists (trace w1 ++ [EvPrint done_streaming]). now rewrite <- app_assoc.
  - exists (trace w1 ++ [EvPrint (exn_str e1); EvPrint done_streaming]).
    now rewrite <- app_assoc.
Qed.

(** *** C8 *)

(** A write of an iteration of streamAlgo fails: the [except] clause logs
    the exception and its traceback, and breaks. *)
Lemma streamAlgo_body_write_fails c k sel w r w1 :
  streamAlgo_body E c k sel w = (r, w1) ->
  nwrite w <= nwrite w1 /\
  forall i e,
    nwrite w <= i < nwrite w1 ->
    res_write E i = Some e ->
    r = Ok Break /\ exists t, trace w1 = t ++ algo_exception_events e.
Proof.
  intros H. unfold_handler. cbn in H.
  repeat (case_step; cbn in H); inversion H; subst; clear H; try absurd_negb;
    st_simpl; (split; [lia|]); intros wi we Hi Hsome;
    try lia;
    assert (Hcase : wi = nwrite w \/ wi = S (nwrite w) \/ wi = S (S (nwrite w))) by lia;
    destruct Hcase as [-> | [-> | ->]]; try congruence; try lia;
    match goal with
    | Hx : res_write E ?j = Some ?e0 |- _ =>
        lazymatch e0 with
        | we => fail
        | _ => assert (we = e0) by congruence; subst we
        end
    end;
    (split; [reflexivity|]); eexists; rewrite <- app_assoc; reflexivity.
Qed.

Lemma streamAlgo_while_write_fails fuel c sel : forall k w r w' i e,
  streamAlgo_while E fuel c k sel w = (r, w') ->
  nwrite w <= i < nwrite w' ->
  res_write E i = Some e ->
  r = Ok tt /\ exists t, trace w' = t ++ algo_exception_events e.
Proof.
  induction fuel as [|fuel IH]; intros k w r w' i e H Hi Hsome; cbn in H.
  - inversion H; subst. lia.
  - unfold bind at 1 in H.
    destruct (streamAlgo_body E c k sel w) as [r1 w1] eqn:Hbody.
    destruct (streamAlgo_body_write_fails _ _ _ _ _ _ Hbody) as [Hle Hfail].
    destruct (Nat.lt_ge_cases i (nwrite w1)) as [Hlt|Hge].
    + destruct (Hfail i e (conj (proj1 Hi) Hlt) Hsome) as [-> Ht].
      inversion H; subst. split; [reflexivity | exact Ht].
    + destruct r1 as [[]|e1|]; cbn beta iota in H; unfold ret in H;
        try (inversion H; subst; lia).
      apply (IH _ _ _ _ i e H); [lia | exact Hsome].
Qed.

(** A write of an iteration of streamDirect fails: the exception leaves
    the loop. *)
Lemma streamDirect_for_write_fails fuel c : forall k w r w' i e,
  streamDirect_for E fuel c k w = (r, w') ->
  nwrite w <= i < nwrite w' ->
  res_write E i = Some e ->
  r = Raise e.
Proof.
  induction fuel as [|fuel IH]; intros k w r w' i e H Hi Hsome; cbn in H.
  - inversion H; subst. lia.
  - unfold_handler. cbn in H.
    repeat (case_step; cbn in H);
      try (inversion H; subst; clear H; st_simpl in Hi; try lia;
           assert (Hcase : i = nwrite w \/ i = S (nwrite w) \/ i = S (S (nwrite w)))
             by lia;
           destruct Hcase as [-> | [-> | ->]]; first [congruence | lia]).
    all: destruct (Nat.lt_ge_cases i (S (S (S (nwrite w))))) as [Hlt|Hge];
      [ assert (Hcase : i = nwrite w \/ i = S (nwrite w) \/ i = S (S (nwrite w)))
          by lia;
        destruct Hcase as [Hi0 | [Hi0 | Hi0]];
        first [ congruence
              | apply (IH _ _ _ _ i e H); [st_simpl; lia | exact Hsome] ]
      | apply (IH _ _ _ _ i e H); [st_simpl; lia | exact Hsome] ].
Qed.

Lemma streamAlgo_write_fails fuel c sel w r w' i e :
  streamAlgo E fuel c sel w = (r, w') ->
  nwrite w <= i < nwrite w' ->
  res_write E i = Some e ->
  r = Ok tt /\ exists t, trace w' = t ++ algo_exception_events e.
Proof.
  intros H Hi Hsome. unfold streamAlgo, print, cam_start, emit, bind, ret, raise in H.
  st_simpl in H. destruct (res_start E).
  - inversion H; subst; clear H. st_simpl in Hi. lia.
  - apply (streamAlgo_while_write_fails _ _ _ _ _ _ _ i e H); [exact Hi | exact Hsome].
Qed.

Lemma streamDirect_write_fails fuel c w r w' i e :
  streamDirect E fuel c w = (r, w') ->
  nwrite w <= i < nwrite w' ->
  res_write E i = Some e ->
  r = Raise e.
Proof.
  intros H Hi Hsome. unfold streamDirect, try_finally in H. unfold bind at 1 2 in H.
  unfold print, emit, set_stream in H. st_simpl in H.
  match type of H with context [streamDirect_for E fuel c 0 ?w0] =>
    destruct (streamDirect_for E fuel c 0 w0) as [r1 w1] eqn:Hf end.
  unfold get_stream, set_stream, bind, ret, raise in H.
  assert (Hn : nwrite w' = nwrite w1) by (destruct r1; inversion H; subst; reflexivity).
  rewrite Hn in Hi.
  pose proof (streamDirect_for_write_fails _ _ _ _ _ _ i e Hf Hi Hsome) as ->.
  inversion H; subst. reflexivity.
Qed.


(** *** C10 *)


(** *** C2 and C9 *)

(** The landing page touches no camera and, when its writes succeed,
    sends its head and the page. *)
Lemma serve_mainPage_trace w r w' :
  serve_mainPage E w = (r, w') ->
  filter is_camera (trace w') = filter is_camera (trace w) /\
  (r = Ok tt ->
   wire (trace w') =
     wire (trace w) ++ head_chunks E (headers_buffer w) "text/html"
       ++ [Py.bytes s_mainPage]).
Proof.
  rewrite serve_mainPage_cases. cbv zeta. intros H.
  destruct (head_write E w);
    [|destruct (res_write E (nwrite (headed_state E w "text/html")))];
    run_eq H; cbn [headed_state trace]; unfold head_chunks;
    destruct (http09 E); rewrite ?filter_app, ?wire_app;
    (split; [cbn; now rewrite ?app_nil_r
            | intros Hr; try discriminate; cbn; now rewrite <- ?app_assoc]).
Qed.


(** C9, as the code has it: the test is on the end of the raw path and
    on nothing else.  A path that does not end in [.mjpg] or [.mjpeg], as
    a stream path followed by a query string, is served the landing page:
    do_GET is serve_mainPage, and no camera call is made.  A path that
    ends in one of the two suffixes is served as a stream whatever comes
    before the suffix, be it a stream path and a query string. *)
Theorem trailing_characters_get_landing_page fuel path w :
  ((forall p, path <> (p ++ ".mjpg")%string) ->
   (forall p, path <> (p ++ ".mjpeg")%string) ->
   do_GET E fuel path w = serve_mainPage E w /\
   forall r w',
     do_GET E fuel path w = (r, w') ->
     filter is_camera (trace w') = filter is_camera (trace w))
  /\
  (forall p,
     path = (p ++ ".mjpg")%string \/ path = (p ++ ".mjpeg")%string ->
     do_GET E fuel path w =
       serve_stream E
         (fun c =>
            if algostr path =? "direct" then streamDirect E fuel c
            else streamAlgo E fuel c (algostr path)) w).
Proof.
  split.
  - intros H1 H2.
    assert (Hs : is_stream_path path = false).
    { destruct (is_stream_path path) eqn:Hs; [|reflexivity].
      apply is_stream_path_spec in Hs as [[p Hp]|[p Hp]];
        [elim (H1 p Hp) | elim (H2 p Hp)]. }
    unfold do_GET. rewrite Hs. split; [reflexivity|].
    intros r w' H. now apply serve_mainPage_trace in H.
  - intros p Hp.
    assert (Hs : is_stream_path path = true).
    { apply is_stream_path_spec. destruct Hp as [Hp|Hp]; [left | right]; now exists p. }
    unfold do_GET. now rewrite Hs.
Qed.

End Sessions.

(** ** The theorems on sample runs *)

Example spec_mode_direct : spec_mode "/direct.mjpg" = Direct.
Proof. reflexivity. Qed.

Example spec_mode_cam : spec_mode "/cam.mjpg" = Algo "cam".
Proof. reflexivity. Qed.

Example spec_mode_case_sensitive : spec_mode "/a/b/Direct.mjpeg" = Algo "Direct".
Proof. reflexivity. Qed.

Example spec_mode_first_dot : spec_mode "/v1.2/direct.raw.mjpeg" = Direct.
Proof. reflexivity. Qed.

Example spec_mode_root : spec_mode "/" = Landing.
Proof. reflexivity. Qed.

Lemma stop_once_per_open_witness :
  exists d,
    trace (snd (do_GET (process_fails_env 2) 5 "/cam.mjpg" fresh)) = trace fresh ++ d /\
    stops d = opens d /\
    opens d = (if acquires (process_fails_env 2) "/cam.mjpg" fresh then 1 else 0).
Proof.
  apply (stop_once_per_open nat nat (process_fails_env 2) 5 "/cam.mjpg" fresh (Ok tt)).
  - vm_compute. reflexivity.
  - discriminate.
Defined.




Lemma process_failure_ends_session_witness :
  exists w' jpgs log,
    do_GET (process_fails_env 4) 10 "/cam.mjpg" fresh
      = (stop_result (process_fails_env 4), w') /\
    map (algo_jpeg (process_fails_env 4) (algostr "/cam.mjpg")) (seq 0 4) = map Some jpgs /\
    length jpgs = 4 /\
    wire_bytes (trace w') =
      wire_bytes (trace fresh) ++ stream_head (process_fails_env 4)
        ++ concat (map (multipart_part (process_fails_env 4)) jpgs) /\
    process_calls (trace w') = process_calls (trace fresh) + 5 /\
    logged (trace w') =
      logged (trace fresh) ++ log ++ algo_exception_events algo_error
        ++ [EvPrint done_streaming] /\
    stops (trace w') = stops (trace fresh) + 1.
Proof.
  apply (process_failure_ends_session nat nat (process_fails_env 4) 10 "/cam.mjpg" fresh
           4 the_cam 4 algo_error).
  - reflexivity.
  - reflexivity.
  - reflexivity.
  - intros i. reflexivity.
  - reflexivity.
  - reflexivity.
  - reflexivity.
  - intros j Hj. do 4 (destruct j as [|j]; [vm_compute; discriminate|]). lia.
  - reflexivity.
  - reflexivity.
  - lia.
Defined.

Lemma encode_failure_skips_frame_witness :
  (exists w1,
     streamAlgo_body (skip_env 1 3) the_cam 1 "cam" fresh_seen = (Ok Next, w1) /\
     wire (trace w1) = wire (trace fresh_seen) /\
     nwrite w1 = nwrite fresh_seen /\
     headers_buffer w1 = headers_buffer fresh_seen /\
     logged (trace w1) = logged (trace fresh_seen) /\
     streamAlgo_while (skip_env 1 3) 6 the_cam 1 "cam" fresh_seen
       = streamAlgo_while (skip_env 1 3) 5 the_cam 2 "cam" w1)
  /\
  (exists camframe value frame rc jpg,
     res_next (skip_env 1 3) 0 = inr camframe /\
     res_processFrame (skip_env 1 3) 0 camframe "cam" = inr (value, frame) /\
     res_imencode (skip_env 1 3) 0 ".jpg" frame s_jpgParam = inr (rc, jpg) /\
     (rc = true ->
      forall i, i < length (part_chunks (skip_env 1 3) jpg) ->
                res_write (skip_env 1 3) (i + nwrite fresh_seen) = None)).
Proof.
  split.
  - apply (proj1 (encode_failure_skips_frame nat nat (skip_env 1 3) the_cam 1 "cam"
                    fresh_seen) 5 1 None 1 []); reflexivity.
  - apply (proj2 (encode_failure_skips_frame nat nat (skip_env 1 3) the_cam 0 "cam"
                    fresh_seen) (Ok Next)
                 (snd (streamAlgo_body (skip_env 1 3) the_cam 0 "cam" fresh_seen))).
    + vm_compute. reflexivity.
    + reflexivity.
Defined.

Lemma comm_published_in_algo_only_witness :
  (comm_calls (trace (snd (streamAlgo_body good_env the_cam 2 "cam" fresh)))
   = comm_calls (trace fresh) ++ [EvState "Acquired"; EvTarget 2]) /\
  (comm_calls (trace (snd (streamAlgo_body good_env the_cam 3 "cam" fresh)))
   = comm_calls (trace fresh) ++ [EvState "Searching"]) /\
  (comm_calls (trace (snd (do_GET good_env 5 "/direct.mjpg" fresh)))
   = comm_calls (trace fresh)).
Proof.
  split; [|split].
  - apply (proj1 (comm_published_in_algo_only nat nat good_env) the_cam 2 "cam" fresh
             2 (Some 2) 2 (Ok Next) _ (comm_Comm "10.49.15.2")).
    + reflexivity.
    + reflexivity.
    + reflexivity.
    + vm_compute. reflexivity.
  - apply (proj1 (comm_published_in_algo_only nat nat good_env) the_cam 3 "cam" fresh
             3 None 3 (Ok Next) _ (comm_Comm "10.49.15.2")).
    + reflexivity.
    + reflexivity.
    + reflexivity.
    + vm_compute. reflexivity.
  - apply (proj2 (comm_published_in_algo_only nat nat good_env) 5 "/direct.mjpg" fresh
             (Ok tt)).
    + reflexivity.
    + reflexivity.
    + vm_compute. reflexivity.
Defined.

Lemma stop_failure_propagates_witness :
  (forall e, res_stop (stop_fails_env 1) = Some e ->
             fst (do_GET (stop_fails_env 1) 5 "/cam.mjpg" fresh) = Raise e) /\
  (res_stop (stop_fails_env 1) = None ->
   fst (do_GET (stop_fails_env 1) 5 "/cam.mjpg" fresh) = Ok tt) /\
  exists t, trace (snd (do_GET (stop_fails_env 1) 5 "/cam.mjpg" fresh)) = t ++ [EvStop].
Proof.
  apply (stop_failure_propagates nat nat (stop_fails_env 1) 5 "/cam.mjpg" fresh).
  - reflexivity.
  - vm_compute. reflexivity.
  - vm_compute. discriminate.
Defined.

(** C7, as the specification words it, fails: [cam.stop()] raises, do_GET
    raises the same exception to its caller, and what do_GET has printed
    ends with the line printed before the call. *)
Lemma stop_failure_leaves_handler :
  fst (do_GET (stop_fails_env 1) 5 "/cam.mjpg" fresh) = Raise camera_error /\
  logged (trace (snd (do_GET (stop_fails_env 1) 5 "/cam.mjpg" fresh))) =
    [EvPrint "cam algo streaming"; EvPrint "1";
     EvPrint "algo exception: no contours"; EvTraceback algo_error;
     EvPrint done_streaming].
Proof. split; vm_compute; reflexivity. Qed.



Lemma trailing_characters_get_landing_page_witness :
  (do_GET good_env 5 "/cam.mjpg?x=1" fresh = serve_mainPage good_env fresh /\
   forall r w',
     do_GET good_env 5 "/cam.mjpg?x=1" fresh = (r, w') ->
     filter is_camera (trace w') = filter is_camera (trace fresh))
  /\
  do_GET good_env 5 "/cam.mjpg?x=a.mjpg" fresh =
    serve_stream good_env
      (fun c =>
         if algostr "/cam.mjpg?x=a.mjpg" =? "direct" then streamDirect good_env 5 c
         else streamAlgo good_env 5 c (algostr "/cam.mjpg?x=a.mjpg")) fresh.
Proof.
  split.
  - apply (proj1 (trailing_characters_get_landing_page nat nat good_env 5
                    "/cam.mjpg?x=1" fresh)).
    + intros p Hp.
      assert (H : Py.endswith "/cam.mjpg?x=1" ".mjpg" = true)
        by (apply endswith_spec; exists p; exact Hp).
      vm_compute in H. discriminate.
    + intros p Hp.
      assert (H : Py.endswith "/cam.mjpg?x=1" ".mjpeg" = true)
        by (apply endswith_spec; exists p; exact Hp).
      vm_compute in H. discriminate.
  - apply (proj2 (trailing_characters_get_landing_page nat nat good_env 5
                    "/cam.mjpg?x=a.mjpg" fresh) "/cam.mjpg?x=a").
    left. reflexivity.
Defined.

(** C9, as the specification words it, fails: [/cam.mjpg?x=a.mjpg] has
    characters after the suffix [.mjpg], a query string, and is not
    served the landing page: the camera is opened and the algo stream
    [cam] runs until its algorithm fails. *)
Lemma query_ending_in_suffix_is_streamed :
  "/cam.mjpg?x=a.mjpg" = ("/cam" ++ ".mjpg" ++ "?x=a.mjpg")%string /\
  is_stream_path "/cam.mjpg?x=a.mjpg" = true /\
  algostr "/cam.mjpg?x=a.mjpg" = "cam" /\
  fst (do_GET (process_fails_env 2) 5 "/cam.mjpg?x=a.mjpg" fresh) = Ok tt /\
  opens (trace (snd (do_GET (process_fails_env 2) 5 "/cam.mjpg?x=a.mjpg" fresh))) = 1 /\
  length (wire (trace (snd (do_GET (process_fails_env 2) 5 "/cam.mjpg?x=a.mjpg" fresh))))
    = 7 /\
  do_GET (process_fails_env 2) 5 "/cam.mjpg?x=a.mjpg" fresh
    <> serve_mainPage (process_fails_env 2) fresh.
Proof.
  repeat split; try (vm_compute; reflexivity).
  intros H. apply (f_equal (fun rw => length (trace (snd rw)))) in H.
  vm_compute in H. discriminate.
Qed.


(** * Further properties of the handler *)

(** ** The selector read off a path *)

Section Selector.

Lemma split_without c s : occurs c s = false -> Py.split c s = [s].
Proof.
  induction s as [|a s IH]; cbn; [reflexivity|].
  destruct (Ascii.eqb a c); cbn; [discriminate|].
  intros H. now rewrite (IH H).
Qed.

Lemma before_first_stem c stem rest :
  occurs c stem = false ->
  before_first c (stem ++ String c rest)%string = stem.
Proof.
  induction stem as [|a s IH]; cbn.
  - now rewrite Ascii.eqb_refl.
  - destruct (Ascii.eqb a c); cbn; [discriminate|].
    intros H. now rewrite (IH H).
Qed.

Lemma split_two c d seg :
  exists h h' t, Py.split c (d ++ String c seg)%string = h :: h' :: t.
Proof.
  induction d as [|a d IH]; cbn.
  - rewrite Ascii.eqb_refl.
    destruct (Py.split c seg) as [|h t] eqn:Hs; [elim (split_nonempty c seg Hs)|].
    eauto.
  - destruct IH as (h & h' & t & Hs). rewrite Hs.
    destruct (Ascii.eqb a c); eauto.
Qed.

Lemma last_split_after c d seg :
  last (Py.split c (d ++ String c seg)%string) "" = last (Py.split c seg) "".
Proof.
  induction d as [|a d IH]; cbn [String.append Py.split].
  - rewrite Ascii.eqb_refl.
    destruct (Py.split c seg) as [|h t] eqn:Hs; [elim (split_nonempty c seg Hs)|].
    reflexivity.
  - destruct (split_two c d seg) as (h & h' & t & Hs). rewrite Hs in *.
    destruct (Ascii.eqb a c); exact IH.
Qed.

(** The final segment of a directory part followed by a name. *)
Lemma final_segment_name dir name :
  dir = "" \/ (exists d, dir = (d ++ "/")%string) ->
  occurs "/" name = false ->
  final_segment (dir ++ name)%string = name.
Proof.
  unfold final_segment. intros [->|[d ->]] Hn.
  - cbn. now rewrite (split_without _ _ Hn).
  - replace ((d ++ "/") ++ name)%string with (d ++ String "/" name)%string.
    + now rewrite last_split_after, (split_without _ _ Hn).
    + clear. induction d as [|a d IH]; cbn; [reflexivity | now rewrite IH].
Qed.

Lemma occurs_append c s t : occurs c (s ++ t)%string = occurs c s || occurs c t.
Proof.
  induction s as [|a s IH]; cbn; [reflexivity|]. now rewrite IH, orb_assoc.
Qed.

(** X1: the selector of a path made of a directory part (empty or ending
    in [/]), a stem without [.] or [/], a dot and a rest without [/] is the
    stem: the directories and everything from the first dot of the name
    on, further extensions included, are dropped. *)
Theorem algostr_of_parts dir stem rest :
  dir = "" \/ (exists d, dir = (d ++ "/")%string) ->
  occurs "/" stem = false ->
  occurs "." stem = false ->
  occurs "/" rest = false ->
  algostr (dir ++ stem ++ "." ++ rest)%string = stem.
Proof.
  intros Hd Hs1 Hs2 Hr. rewrite algostr_spec_stem. unfold spec_stem.
  rewrite final_segment_name.
  - apply (before_first_stem "." stem rest Hs2).
  - exact Hd.
  - rewrite occurs_append, Hs1. cbn. exact Hr.
Qed.

Lemma before_first_occurs c d s :
  occurs d s = false -> occurs d (before_first c s) = false.
Proof.
  induction s as [|a s IH]; cbn; [reflexivity|].
  intros H. apply orb_false_iff in H as [Ha Hs].
  destruct (Ascii.eqb a c); cbn; [reflexivity|]. now rewrite Ha, (IH Hs).
Qed.

Lemma before_first_free c s : occurs c (before_first c s) = false.
Proof.
  induction s as [|a s IH]; cbn; [reflexivity|].
  destruct (Ascii.eqb a c) eqn:Ha; cbn; [reflexivity|]. now rewrite Ha.
Qed.

Lemma split_segments_free c s : Forall (fun x => occurs c x = false) (Py.split c s).
Proof.
  induction s as [|a s IH]; cbn.
  - constructor; [reflexivity | constructor].
  - destruct (Ascii.eqb a c) eqn:Ha.
    + constructor; [reflexivity | exact IH].
    + destruct (Py.split c s) as [|h t]; inversion IH; subst.
      * constructor; [cbn; now rewrite Ha | constructor].
      * constructor; [cbn; now rewrite Ha | assumption].
Qed.

Lemma final_segment_free path : occurs "/" (final_segment path) = false.
Proof.
  unfold final_segment. pose proof (split_segments_free "/" path) as H.
  pose proof (split_nonempty "/" path) as Hne.
  induction (Py.split "/" path) as [|x l IH]; [congruence|].
  inversion H; subst. destruct l as [|y l]; [assumption|].
  apply IH; [assumption | discriminate].
Qed.

(** X2: whatever the path, the selector handed to the session has no
    dot and no slash in it. *)
Theorem algostr_has_no_dot_no_slash path :
  occurs "." (algostr path) = false /\ occurs "/" (algostr path) = false.
Proof.
  rewrite algostr_spec_stem. unfold spec_stem. split.
  - apply before_first_free.
  - apply before_first_occurs, final_segment_free.
Qed.

End Selector.

Lemma algostr_of_parts_witness :
  algostr ("/streams/v1.2/" ++ "direct" ++ "." ++ "raw.mjpeg")%string = "direct".
Proof.
  apply (algostr_of_parts "/streams/v1.2/" "direct" "raw.mjpeg").
  - right. exists "/streams/v1.2". reflexivity.
  - reflexivity.
  - reflexivity.
  - reflexivity.
Defined.

(** ** do_GET around the session, by cases *)

Section Further.

Variables Image Value : Type.
Variable E : Env Image Value.

(** The four ways of a stream request. *)
Lemma do_GET_stream_cases fuel path w r w' :
  is_stream_path path = true ->
  do_GET E fuel path w = (r, w') ->
  (exists e,
     head_write E w = Some e /\ r = Raise e /\
     w' = mkState (trace w ++ [EvLogRequest 200]) (S (nwrite w))
                  (headers_buffer w ++ stream_head E) (s_first w) (cam w) (stream w))
  \/
  (head_write E w = None /\
   exists e,
     res_PiCam E = inl e /\ r = Ok tt /\
     w' = mkState (trace w ++ [EvLogRequest 200]
                     ++ map EvWrite (stream_head_chunks E w)
                     ++ [EvSleep 1000; EvPiCam (inl e); EvPrint (exn_str e);
                         EvPrint done_streaming; EvPrint "(cam init problem)"])
                  (if http09 E then nwrite w else S (nwrite w))
                  (if http09 E then headers_buffer w else [])
                  (s_first w) None (stream w))
  \/
  (head_write E w = None /\
   exists c,
     res_PiCam E = inr c /\ cam_bool c = false /\ r = Ok tt /\
     w' = add_events (opened_state E w c)
            [EvPrint "Hey no camera!"; EvPrint done_streaming;
             EvPrint "(cam init problem)"])
  \/
  (head_write E w = None /\
   exists c r1 w1,
     res_PiCam E = inr c /\ cam_bool c = true /\
     (if algostr path =? "direct" then streamDirect E fuel c
      else streamAlgo E fuel c (algostr path)) (opened_state E w c) = (r1, w1) /\
     cam w1 = Some c /\
     (r, w') =
       match r1 with
       | Ok _ => (stop_result E, add_events w1 [EvPrint done_streaming; EvStop])
       | Raise e =>
           (stop_result E,
            add_events w1 [EvPrint (exn_str e); EvPrint done_streaming; EvStop])
       | Timeout => (Timeout, w1)
       end).
Proof.
  intros Hp H. unfold do_GET in H. rewrite Hp in H.
  destruct (head_write E w) as [e|] eqn:Hw.
  { rewrite (serve_stream_head_fails _ _ _ _ _ _ Hw) in H. run_eq H.
    left. eauto. }
  right. destruct (res_PiCam E) as [e|c] eqn:Hc.
  { rewrite (serve_stream_ctor_raises _ _ _ _ _ _ Hw Hc) in H. run_eq H.
    left. split; [reflexivity|]. eauto. }
  right. destruct (cam_bool c) eqn:Hb.
  - right. split; [reflexivity|].
    match type of H with serve_stream E ?s w = _ =>
      destruct (s c (opened_state E w c)) as [r1 w1] eqn:Hs end.
    pose proof (session_extends _ _ _ _ _ _ _ _ _ Hs) as [Hcam _].
    rewrite (serve_stream_opened _ _ _ _ _ _ _ _ Hw Hc Hb Hs Hcam) in H.
    exists c, r1, w1. cbn [opened_state cam] in Hcam. auto.
  - left. split; [reflexivity|].
    rewrite (serve_stream_no_camera _ _ _ _ _ _ Hw Hc Hb) in H. run_eq H.
    eauto.
Qed.

(** ** What do_GET lets out *)

(** X3: a stream request contains every failure of its session.  When
    the response head can be written and [cam.stop()] does not raise,
    do_GET does not raise, whatever the camera, the algorithm, the encoder
    and the later writes do: it returns normally, or the stream is still
    running. *)
Theorem session_failures_contained fuel path w r w' :
  is_stream_path path = true ->
  head_write E w = None ->
  res_stop E = None ->
  do_GET E fuel path w = (r, w') ->
  r = Ok tt \/ r = Timeout.
Proof.
  intros Hp Hw Hst H.
  destruct (do_GET_stream_cases _ _ _ _ _ Hp H)
    as [(e & He & _) | [(_ & e & _ & -> & _) | [(_ & c & _ & _ & -> & _)
       | (_ & c & r1 & w1 & _ & _ & _ & _ & Hr)]]].
  - congruence.
  - now left.
  - now left.
  - unfold stop_result in Hr. rewrite Hst in Hr.
    destruct r1 as [[]|e|]; inversion Hr; auto.
Qed.

(** X4: in a stream request whose response head is written, the first
    things done are, in this order: the request is logged, the head is
    written in one piece (a request line without an HTTP version gets no
    head), one second is slept, and only then is [picam.PiCam(...)]
    called; everything else comes after. *)
Theorem camera_opened_after_head_and_sleep fuel path w r w' :
  is_stream_path path = true ->
  head_write E w = None ->
  do_GET E fuel path w = (r, w') ->
  exists rest,
    trace w' =
      trace w ++ [EvLogRequest 200] ++ map EvWrite (stream_head_chunks E w)
        ++ [EvSleep 1000; EvPiCam (res_PiCam E)] ++ rest.
Proof.
  intros Hp Hw H.
  destruct (do_GET_stream_cases _ _ _ _ _ Hp H)
    as [(e & He & _) | [(_ & e & Hc & _ & ->) | [(_ & c & Hc & _ & _ & ->)
       | (_ & c & r1 & w1 & Hc & _ & Hs & _ & Hr)]]].
  - congruence.
  - rewrite Hc. eexists. cbn [trace]. reflexivity.
  - rewrite Hc. eexists. cbn [add_events opened_state trace].
    rewrite <- !app_assoc. reflexivity.
  - rewrite Hc. apply session_extends in Hs as [_ (d & Ht & _)].
    cbn [opened_state trace] in Ht.
    destruct r1 as [[]|e|]; run_eq Hr; cbn [add_events trace];
      rewrite ?Ht; eexists; rewrite <- !app_assoc; reflexivity.
Qed.

(** X5: when the write of the response head fails, do_GET raises the
    exception of the write and has done nothing but log the request: no
    sleep, no camera, nothing on the wire; the head stays in the buffer. *)
Theorem head_write_failure_leaves_camera_alone fuel path w e :
  is_stream_path path = true ->
  head_write E w = Some e ->
  exists w',
    do_GET E fuel path w = (Raise e, w') /\
    trace w' = trace w ++ [EvLogRequest 200] /\
    headers_buffer w' = headers_buffer w ++ stream_head E /\
    nwrite w' = S (nwrite w).
Proof.
  intros Hp Hw. unfold do_GET. rewrite Hp.
  rewrite (serve_stream_head_fails _ _ _ _ _ _ Hw). eexists. split; [reflexivity|].
  st_simpl. auto.
Qed.


(** ** One iteration of streamAlgo, further facts *)

(** An iteration is over when it returns. *)
Lemma streamAlgo_body_returns c k sel w r w1 :
  streamAlgo_body E c k sel w = (r, w1) -> r <> Timeout.
Proof.
  intros H. unfold_handler. cbn in H.
  repeat (case_step; cbn in H); inversion H; discriminate.
Qed.

(** [break] is reached through the [except] clause only. *)
Lemma streamAlgo_body_break c k sel w w1 :
  streamAlgo_body E c k sel w = (Ok Break, w1) ->
  exists t e, trace w1 = t ++ algo_exception_events e.
Proof.
  intros H. unfold_handler. cbn in H.
  repeat (case_step; cbn in H); inversion H; subst; clear H;
    st_simpl; eexists; eexists; rewrite <- app_assoc; reflexivity.
Qed.

(** A failing iteration does not hand over. *)
Lemma streamAlgo_body_fails c k sel w r w1 :
  algo_fails E sel k = true ->
  streamAlgo_body E c k sel w = (r, w1) ->
  r <> Ok Next.
Proof.
  unfold algo_fails. intros Hf H. unfold_handler. cbn in H.
  repeat (case_step; cbn in H); inversion H; subst; clear H;
    try discriminate.
Qed.

(** Without [s_comm] an iteration makes no call on it. *)
Lemma streamAlgo_body_no_comm c k sel w r w1 :
  s_comm E = None ->
  streamAlgo_body E c k sel w = (r, w1) ->
  comm_calls (trace w1) = comm_calls (trace w).
Proof.
  intros Hn H. unfold_handler. cbn in H. rewrite Hn in H.
  repeat (case_step; cbn in H); inversion H; subst; clear H;
    st_simpl; app_norm; rewrite comm_calls_app; cbn; now rewrite app_nil_r.
Qed.

Lemma part_writes_pos : 0 < part_writes E.
Proof. unfold part_writes. destruct (http09 E); lia. Qed.

(** Pauses and writes of one iteration: a pause after the writes of a
    part, or neither; an iteration that ends the loop pauses not and
    writes less than a part. *)
Lemma streamAlgo_body_pauses c k sel w r w1 :
  streamAlgo_body E c k sel w = (r, w1) ->
  exists d,
    trace w1 = trace w ++ d /\
    ((r = Ok Next /\ length (wire d) = part_writes E * pauses d) \/
     (r <> Ok Next /\ pauses d = 0 /\ length (wire d) < part_writes E)).
Proof.
  intros H. unfold part_writes. unfold_handler. revert H.
  destruct (http09 E); intros H; cbn in H;
    repeat (case_step; cbn in H); inversion H; subst; clear H; try absurd_negb;
    st_simpl; eexists; (split; [app_norm; reflexivity|]);
    first [ left; split; [reflexivity|]; reflexivity
          | right; split; [discriminate|]; split; [reflexivity | cbn; lia] ].
Qed.

(** Once the size of a first JPEG was printed, an iteration prints
    nothing, unless it ends in the [except] clause; and an iteration
    that attempts a write has announced the size before. *)
Lemma streamAlgo_body_first c k sel w r w1 :
  streamAlgo_body E c k sel w = (r, w1) ->
  (nwrite w < nwrite w1 -> s_first w1 = false) /\
  (s_first w = false ->
   s_first w1 = false /\
   ((r <> Ok Break /\ logged (trace w1) = logged (trace w)) \/
    (r = Ok Break /\
     exists e, logged (trace w1) = logged (trace w) ++ algo_exception_events e))).
Proof.
  intros H. unfold_handler. cbn in H.
  repeat (case_step; cbn in H); inversion H; subst; clear H; try absurd_negb;
    st_simpl; (split; [intros Hlt; first [reflexivity | lia]|]);
    intros Hf; try congruence; (split; [first [reflexivity | assumption]|]);
    app_norm; rewrite logged_app;
    first [ left; split; [discriminate|]; cbn; now rewrite app_nil_r
          | right; split; [reflexivity|]; eexists; reflexivity ].
Qed.

(** ** The loop of streamAlgo *)

(** X7: streamAlgo returns normally through its [except] clause only:
    when it returns, the last things in the trace are the print of
    [algo exception: ...] and the traceback of one exception.  There is
    no other way out of [while True] than that [break] or an exception of
    [cam.start()] or [cam.next()]. *)
Theorem streamAlgo_returns_after_exception_only fuel c sel w w' :
  streamAlgo E fuel c sel w = (Ok tt, w') ->
  exists t e, trace w' = t ++ algo_exception_events e.
Proof.
  intros H. unfold streamAlgo, print, cam_start, emit, bind, ret, raise in H.
  st_simpl in H. destruct (res_start E); [discriminate|].
  match type of H with streamAlgo_while E fuel c 0 sel ?w0 = _ =>
    generalize dependent w0 end.
  generalize 0 as k.
  induction fuel as [|fuel IH]; intros k w0 H; cbn in H; [discriminate|].
  unfold bind at 1 in H.
  destruct (streamAlgo_body E c k sel w0) as [r1 w1] eqn:Hb.
  destruct r1 as [[]|e|]; try discriminate.
  - eapply IH; exact H.
  - inversion H; subst. eapply streamAlgo_body_break; exact Hb.
Qed.

Lemma streamAlgo_while_fails fuel c sel n : forall k w,
  algo_fails E sel n = true ->
  k <= n < k + fuel ->
  fst (streamAlgo_while E fuel c k sel w) <> Timeout.
Proof.
  induction fuel as [|fuel IH]; intros k w Hf Hn; [lia|].
  cbn [streamAlgo_while]. unfold bind at 1.
  destruct (streamAlgo_body E c k sel w) as [r1 w1] eqn:Hb.
  pose proof (streamAlgo_body_returns _ _ _ _ _ _ Hb) as Hr.
  destruct r1 as [[]|e|]; cbn; try discriminate; try congruence.
  destruct (Nat.eq_dec k n) as [->|Hne].
  - elim (streamAlgo_body_fails _ _ _ _ _ _ Hf Hb). reflexivity.
  - apply IH; [exact Hf | lia].
Qed.

(** X8: in algo mode, when in some iteration [n] (from 0) [cam.next()],
    [algo.processFrame] or [cv2.imencode] raises, do_GET is over as soon
    as the fuel allows [n + 1] iterations, whatever the other iterations
    and the client do. *)
Theorem failing_frame_ends_session fuel path w n :
  is_stream_path path = true ->
  (algostr path =? "direct") = false ->
  algo_fails E (algostr path) n = true ->
  n < fuel ->
  fst (do_GET E fuel path w) <> Timeout.
Proof.
  intros Hp Hd Hf Hn.
  destruct (do_GET E fuel path w) as [r w'] eqn:H. cbn [fst].
  destruct (do_GET_stream_cases _ _ _ _ _ Hp H)
    as [(e & _ & -> & _) | [(_ & e & _ & -> & _) | [(_ & c & _ & _ & -> & _)
       | (_ & c & r1 & w1 & _ & _ & Hs & _ & Hr)]]]; try discriminate.
  rewrite Hd in Hs.
  assert (Hr1 : r1 <> Timeout).
  { unfold streamAlgo, print, cam_start, emit, bind, ret, raise in Hs.
    st_simpl in Hs. destruct (res_start E); [inversion Hs; discriminate|].
    match type of Hs with streamAlgo_while E fuel c 0 _ ?w0 = _ =>
      pose proof (streamAlgo_while_fails fuel c (algostr path) n 0 w0 Hf) as Hw end.
    rewrite Hs in Hw. apply Hw. lia. }
  unfold stop_result in Hr.
  destruct r1 as [[]|e|]; try congruence; inversion Hr; subst;
    destruct (res_stop E); discriminate.
Qed.

(** X9: an algo stream whose every frame is pulled and processed but
    never encoded ([rc] false each time) does not end and writes
    nothing, whether the client is still there or not: [continue] comes
    before any write, and the writes are the only place where a client
    that left is noticed. *)
Theorem skipping_stream_never_notices_disconnect fuel c sel :
  (forall k, algo_skips E sel k = true) ->
  forall k w, exists w',
    streamAlgo_while E fuel c k sel w = (Timeout, w') /\
    nwrite w' = nwrite w /\
    wire (trace w') = wire (trace w).
Proof.
  intros Hs. induction fuel as [|fuel IH]; intros k w.
  - exists w. repeat split.
  - pose proof (Hs k) as Hk. unfold algo_skips in Hk.
    destruct (res_next E k) as [?|camframe] eqn:Hn; [discriminate|].
    destruct (res_processFrame E k camframe sel) as [?|[value frame]] eqn:Hp;
      [discriminate|].
    destruct (res_imencode E k ".jpg" frame s_jpgParam) as [?|[[] jpg]] eqn:He;
      try discriminate.
    cbn [streamAlgo_while]. unfold bind at 1.
    rewrite (body_encode_skips _ _ _ c k sel w _ _ _ _ Hn Hp He).
    match goal with |- context [streamAlgo_while E fuel c (S k) sel ?w1] =>
      destruct (IH (S k) w1) as (w' & Hrun & Hnw & Hw) end.
    exists w'. split; [exact Hrun|]. split; [exact Hnw|].
    rewrite Hw. st_simpl. rewrite wire_app. unfold comm_events.
    destruct (s_comm E); [destruct value|]; cbn; now rewrite app_nil_r.
Qed.

(** X10: an algo stream in which nothing fails does not end either:
    after any number of iterations the loop is still running, and it has
    written one part per iteration, in order. *)
Theorem faultless_stream_never_ends fuel c sel w :
  headers_buffer w = [] ->
  (forall i, res_write E i = None) ->
  (forall k, algo_jpeg E sel k <> None) ->
  exists w' jpgs,
    streamAlgo_while E fuel c 0 sel w = (Timeout, w') /\
    map (algo_jpeg E sel) (seq 0 fuel) = map Some jpgs /\
    wire (trace w') = wire (trace w) ++ flat_map (part_chunks E) jpgs.
Proof.
  intros Hb Hw Hj.
  destruct (streamAlgo_while_sends _ _ E c sel fuel 0 0 w Hb Hw)
    as (w1 & d & jpgs & Hrun & Ht & _ & _ & Hm & Hwire & _).
  { intros j _. apply Hj. }
  rewrite Nat.add_0_r in Hrun. exists w1, jpgs.
  split; [exact Hrun|]. split; [exact Hm|]. now rewrite Ht, wire_app, Hwire.
Qed.

Lemma streamAlgo_while_pauses fuel c sel : forall k w r w',
  streamAlgo_while E fuel c k sel w = (r, w') ->
  exists d j,
    trace w' = trace w ++ d /\ j < part_writes E /\
    length (wire d) = part_writes E * pauses d + j.
Proof.
  induction fuel as [|fuel IH]; intros k w r w' H; cbn in H.
  - inversion H; subst. exists [], 0. rewrite app_nil_r.
    split; [reflexivity|]. split; [apply part_writes_pos | cbn; lia].
  - unfold bind at 1 in H.
    destruct (streamAlgo_body E c k sel w) as [r1 w1] eqn:Hb.
    destruct (streamAlgo_body_pauses _ _ _ _ _ _ Hb)
      as (d1 & Ht1 & [(-> & Hl) | (Hn & Hp & Hl)]).
    + destruct (IH _ _ _ _ H) as (d2 & j & Ht2 & Hj & Hl2).
      exists (d1 ++ d2), j. rewrite Ht2, Ht1, <- app_assoc. split; [reflexivity|].
      split; [exact Hj|]. unfold pauses in *.
      rewrite wire_app, filter_app, !length_app, Hl, Hl2. lia.
    + exists d1, (length (wire d1)). split.
      * destruct r1 as [[]|e|]; try congruence; inversion H; subst; exact Ht1.
      * split; [exact Hl | rewrite Hp; lia].
Qed.


Lemma streamAlgo_while_first fuel c sel : forall k w r w',
  s_first w = false ->
  streamAlgo_while E fuel c k sel w = (r, w') ->
  s_first w' = false /\
  (logged (trace w') = logged (trace w) \/
   exists e, logged (trace w') = logged (trace w) ++ algo_exception_events e).
Proof.
  induction fuel as [|fuel IH]; intros k w r w' Hf H; cbn in H.
  - inversion H; subst. auto.
  - unfold bind at 1 in H.
    destruct (streamAlgo_body E c k sel w) as [r1 w1] eqn:Hb.
    destruct (proj2 (streamAlgo_body_first _ _ _ _ _ _ Hb) Hf)
      as (Hf1 & [(Hn & Hl) | (-> & e & Hl)]).
    + destruct r1 as [[]|e|]; try congruence.
      * destruct (IH _ _ _ _ Hf1 H) as (Hf' & Hl'). split; [exact Hf'|].
        rewrite Hl in Hl'. exact Hl'.
      * inversion H; subst. auto.
      * inversion H; subst. auto.
    + inversion H; subst. split; [exact Hf1|]. right. eauto.
Qed.


(** ** Failures of the camera in algo mode *)

(** X13: when [cam.start()] raises, no frame is pulled and nothing is
    written after the response head: do_GET prints the banner of the
    mode, the message of the exception and [done streaming], and stops
    the camera, for any fuel. *)
Theorem start_failure_ends_session fuel path w c e :
  is_stream_path path = true ->
  (algostr path =? "direct") = false ->
  head_write E w = None ->
  res_PiCam E = inr c ->
  cam_bool c = true ->
  res_start E = Some e ->
  do_GET E fuel path w =
    (stop_result E,
     add_events (opened_state E w c)
       [EvPrint (algostr path ++ " algo streaming"); EvStart;
        EvPrint (exn_str e); EvPrint done_streaming; EvStop]).
Proof.
  intros Hp Hd Hw Hc Hb Hst. unfold do_GET. rewrite Hp, Hd.
  assert (Hs : streamAlgo E fuel c (algostr path) (opened_state E w c) =
               (Raise e, add_events (opened_state E w c)
                           [EvPrint (algostr path ++ " algo streaming"); EvStart])).
  { unfold streamAlgo, print, cam_start, emit, bind, ret, raise. st_simpl.
    rewrite Hst. unfold add_events. now app_norm. }
  rewrite (serve_stream_opened _ _ _ _ _ _ _ _ Hw Hc Hb Hs eq_refl).
  unfold add_events. st_simpl. now app_norm.
Qed.

(** Successful iterations, with what they log: the size of the first
    JPEG when it was not announced yet, and nothing else. *)
Lemma streamAlgo_while_sends_log c sel n : forall fuel k w,
  headers_buffer w = [] ->
  (forall i, res_write E i = None) ->
  (forall j, k <= j < k + n -> algo_jpeg E sel j <> None) ->
  exists w1 d jpgs,
    streamAlgo_while E (n + fuel) c k sel w = streamAlgo_while E fuel c (k + n) sel w1 /\
    trace w1 = trace w ++ d /\
    cam w1 = cam w /\
    map (algo_jpeg E sel) (seq k n) = map Some jpgs /\
    wire d = flat_map (part_chunks E) jpgs /\
    process_calls d = n /\
    stops d = 0 /\
    logged d = match jpgs with
               | [] => []
               | jpg :: _ => first_events (s_first w) jpg
               end.
Proof.
  induction n as [|n IH]; intros fuel k w Hb Hw Hj.
  - exists w, [], []. rewrite Nat.add_0_r, app_nil_r. cbn.
    repeat split; reflexivity.
  - assert (Hk : algo_jpeg E sel k <> None) by (apply Hj; lia).
    unfold algo_jpeg in Hk.
    destruct (res_next E k) as [?|camframe] eqn:Hn; [congruence|].
    destruct (res_processFrame E k camframe sel) as [?|[value frame]] eqn:Hp; [congruence|].
    destruct (res_imencode E k ".jpg" frame s_jpgParam) as [?|[[] jpg]] eqn:He;
      try congruence.
    pose proof (body_sends _ _ _ c k sel w _ _ _ _ Hn Hp He (fun i _ => Hw _) Hb)
      as Hbody.
    match type of Hbody with _ = (_, ?w0) => set (w1 := w0) in * end.
    destruct (IH fuel (S k) w1)
      as (w2 & d & jpgs & Hrun & Ht & Hc2 & Hm & Hwire & Hpc & Hst & Hlog).
    { reflexivity. } { exact Hw. } { intros j Hlt. apply Hj. lia. }
    exists w2, ([EvNext; EvProcess camframe sel] ++ comm_events E value
                 ++ [EvEncode frame] ++ first_events (s_first w) jpg
                 ++ map EvWrite (part_chunks E jpg) ++ [EvSleep 50] ++ d), (jpg :: jpgs).
    split.
    { cbn [Nat.add streamAlgo_while]. unfold bind at 1. rewrite Hbody.
      rewrite Hrun. f_equal. lia. }
    split. { rewrite Ht. subst w1. st_simpl. now app_norm. }
    split; [exact Hc2|].
    split. { cbn [seq map]. rewrite Hm. unfold algo_jpeg. now rewrite Hn, Hp, He. }
    assert (Hlog' : logged d = []).
    { rewrite Hlog. destruct jpgs; reflexivity. }
    unfold comm_events, first_events.
    split; [|split; [|split]].
    + cbn [flat_map]. rewrite <- Hwire. unfold part_chunks, framed_chunks.
      destruct (http09 E); (destruct (s_comm E); [destruct value|]);
        destruct (s_first w); reflexivity.
    + rewrite <- Hpc. unfold part_chunks, framed_chunks.
      destruct (http09 E); (destruct (s_comm E); [destruct value|]);
        destruct (s_first w); reflexivity.
    + rewrite !stops_app, Hst, stops_writes.
      destruct (s_comm E); [destruct value|]; destruct (s_first w); reflexivity.
    + rewrite !logged_app, Hlog', logged_writes.
      destruct (s_comm E); [destruct value|]; destruct (s_first w); reflexivity.
Qed.


(** ** Direct mode *)

(** Steps of the capture whose parts are written in full. *)
Lemma streamDirect_for_run c n : forall fuel k w,
  headers_buffer w = [] ->
  stream w = BytesIO.new ->
  (forall i, res_write E i = None) ->
  (forall j, k <= j < k + n -> direct_jpeg E j <> None) ->
  exists w1 d jpgs,
    streamDirect_for E (n + fuel) c k w = streamDirect_for E fuel c (k + n) w1 /\
    trace w1 = trace w ++ d /\
    headers_buffer w1 = [] /\
    stream w1 = BytesIO.new /\
    cam w1 = cam w /\
    map (direct_jpeg E) (seq k n) = map Some jpgs /\
    wire d = flat_map (part_chunks E) jpgs /\
    logged d = [] /\
    stops d = 0.
Proof.
  induction n as [|n IH]; intros fuel k w Hb Hs Hw Hj.
  - exists w, [], []. rewrite Nat.add_0_r, app_nil_r. cbn.
    repeat split; try reflexivity; assumption.
  - assert (Hk : direct_jpeg E k <> None) by (apply Hj; lia).
    unfold direct_jpeg in Hk.
    destruct (res_capture E k) as [frame| |?] eqn:Hc; try congruence.
    pose proof (streamDirect_for_sends _ _ E (n + fuel) c k w frame Hc (fun i _ => Hw _) Hb)
      as Hstep.
    rewrite Hs, BytesIO_write_new in Hstep. cbn [BytesIO.getvalue BytesIO.buf] in Hstep.
    match type of Hstep with _ = streamDirect_for _ _ _ _ ?w0 => set (w1 := w0) in * end.
    destruct (IH fuel (S k) w1)
      as (w2 & d & jpgs & Hrun & Ht & Hb2 & Hs2 & Hc2 & Hm & Hwire & Hlog & Hst).
    { reflexivity. } { reflexivity. } { exact Hw. } { intros j Hlt. apply Hj. lia. }
    exists w2, ([EvCapture] ++ map EvWrite (part_chunks E frame) ++ d), (frame :: jpgs).
    split. { cbn [Nat.add]. rewrite Hstep, Hrun. f_equal. lia. }
    split. { rewrite Ht. subst w1. st_simpl. now app_norm. }
    split; [exact Hb2|]. split; [exact Hs2|]. split; [exact Hc2|].
    split. { cbn [seq map]. rewrite Hm. unfold direct_jpeg. now rewrite Hc. }
    split; [|split].
    + cbn [flat_map]. rewrite <- Hwire.
      now rewrite !wire_app, (wire_map_EvWrite _ _ (part_chunks E frame)).
    + now rewrite !logged_app, Hlog, logged_writes.
    + now rewrite !stops_app, Hst, stops_writes.
Qed.


Lemma streamDirect_for_ends fuel c n : forall k w,
  direct_jpeg E n = None ->
  k <= n < k + fuel ->
  fst (streamDirect_for E fuel c k w) <> Timeout.
Proof.
  unfold direct_jpeg.
  induction fuel as [|fuel IH]; intros k w Hn Hk; [lia|].
  destruct (Nat.eq_dec k n) as [->|Hne].
  - cbn [streamDirect_for]. unfold capture_next, emit, bind, ret, raise. st_simpl.
    destruct (res_capture E n); [congruence| |]; cbn; discriminate.
  - cbn [streamDirect_for]. unfold_handler. cbn.
    repeat (case_step; cbn); try discriminate;
      (apply IH; [exact Hn | lia]).
Qed.

(** X16: in direct mode, when the capture ends or raises at some step
    [n], do_GET is over as soon as the fuel allows [n + 1] steps,
    whatever the client does. *)
Theorem capture_end_ends_session fuel path w n :
  is_stream_path path = true ->
  (algostr path =? "direct") = true ->
  direct_jpeg E n = None ->
  n < fuel ->
  fst (do_GET E fuel path w) <> Timeout.
Proof.
  intros Hp Hd Hn Hfuel.
  destruct (do_GET E fuel path w) as [r w'] eqn:H. cbn [fst].
  destruct (do_GET_stream_cases _ _ _ _ _ Hp H)
    as [(e & _ & -> & _) | [(_ & e & _ & -> & _) | [(_ & c & _ & _ & -> & _)
       | (_ & c & r1 & w1 & _ & _ & Hs & _ & Hr)]]]; try discriminate.
  rewrite Hd in Hs.
  assert (Hr1 : r1 <> Timeout).
  { unfold streamDirect, try_finally in Hs. unfold bind at 1 2 in Hs.
    unfold print, emit, set_stream in Hs. st_simpl in Hs.
    match type of Hs with context [streamDirect_for E fuel c 0 ?w0] =>
      pose proof (streamDirect_for_ends fuel c n 0 w0 Hn) as Hw;
      destruct (streamDirect_for E fuel c 0 w0) as [r2 w2] end.
    cbn [fst] in Hw. unfold get_stream, set_stream, bind, ret, raise in Hs.
    destruct r2; inversion Hs; subst; try discriminate. apply Hw. lia. }
  unfold stop_result in Hr.
  destruct r1 as [[]|e|]; try congruence; inversion Hr; subst;
    destruct (res_stop E); discriminate.
Qed.

Lemma direct_event_not_algo_only (ev : Event Image Value) :
  direct_event ev = true -> algo_only_event ev = false.
Proof. destruct ev; cbn; congruence. Qed.

Lemma direct_event_not_pause (ev : Event Image Value) :
  direct_event ev = true -> is_pause ev = false.
Proof. destruct ev; cbn; congruence. Qed.

Lemma algo_event_not_capture (ev : Event Image Value) :
  algo_event ev = true -> is_capture ev = false.
Proof. destruct ev; cbn; congruence. Qed.

(** X17: a request served in direct mode never calls [cam.start()],
    [cam.next()], [algo.processFrame], [cv2.imencode] or [s_comm], prints
    no traceback and never sleeps the 50 ms of the algo loop; the frames
    come from the capture generator alone. *)
Theorem direct_mode_uses_capture_only fuel path w r w' :
  is_stream_path path = true ->
  (algostr path =? "direct") = true ->
  do_GET E fuel path w = (r, w') ->
  filter algo_only_event (trace w') = filter algo_only_event (trace w) /\
  pauses (trace w') = pauses (trace w).
Proof.
  intros Hp Hd H. unfold pauses.
  destruct (do_GET_stream_cases _ _ _ _ _ Hp H)
    as [(e & _ & _ & ->) | [(_ & e & _ & _ & ->) | [(_ & c & _ & _ & _ & ->)
       | (_ & c & r1 & w1 & _ & _ & Hs & _ & Hr)]]].
  - st_simpl. rewrite !filter_app. cbn. now rewrite !app_nil_r.
  - st_simpl. rewrite !filter_app. head_cases E; cbn; now rewrite !app_nil_r.
  - cbn [add_events opened_state trace]. rewrite !filter_app.
    head_cases E; cbn; now rewrite !app_nil_r.
  - rewrite Hd in Hs. apply streamDirect_extends in Hs as [_ (d & Ht & Hev)].
    cbn [opened_state trace] in Ht.
    assert (Hw1 : filter algo_only_event (trace w1) = filter algo_only_event (trace w) /\
                  filter is_pause (trace w1) = filter is_pause (trace w)).
    { rewrite Ht, !filter_app.
      rewrite (filter_excluded _ _ _ _ d direct_event_not_algo_only Hev).
      rewrite (filter_excluded _ _ _ _ d direct_event_not_pause Hev).
      head_cases E; cbn; now rewrite !app_nil_r. }
    destruct Hw1 as [Ha Hpz].
    destruct r1 as [[]|e|]; inversion Hr; subst; cbn [add_events trace];
      rewrite ?filter_app; cbn; rewrite ?app_nil_r, ?Ha, ?Hpz; auto.
Qed.

(** X18: a request served in algo mode never advances the capture
    generator of direct mode. *)
Theorem algo_mode_never_captures fuel path w r w' :
  is_stream_path path = true ->
  (algostr path =? "direct") = false ->
  do_GET E fuel path w = (r, w') ->
  filter is_capture (trace w') = filter is_capture (trace w).
Proof.
  intros Hp Hd H.
  destruct (do_GET_stream_cases _ _ _ _ _ Hp H)
    as [(e & _ & _ & ->) | [(_ & e & _ & _ & ->) | [(_ & c & _ & _ & _ & ->)
       | (_ & c & r1 & w1 & _ & _ & Hs & _ & Hr)]]].
  - st_simpl. rewrite !filter_app. cbn. now rewrite !app_nil_r.
  - st_simpl. rewrite !filter_app. head_cases E; cbn; now rewrite !app_nil_r.
  - cbn [add_events opened_state trace]. rewrite !filter_app.
    head_cases E; cbn; now rewrite !app_nil_r.
  - rewrite Hd in Hs. apply streamAlgo_extends in Hs as [_ (d & Ht & Hev)].
    cbn [opened_state trace] in Ht.
    assert (Hw1 : filter is_capture (trace w1) = filter is_capture (trace w)).
    { rewrite Ht, !filter_app.
      rewrite (filter_excluded _ _ _ _ d algo_event_not_capture Hev).
      head_cases E; cbn; now rewrite !app_nil_r. }
    destruct r1 as [[]|e|]; inversion Hr; subst; cbn [add_events trace];
      rewrite ?filter_app; cbn; rewrite ?app_nil_r; auto.
Qed.

(** ** Without a robot *)

Lemma streamAlgo_while_no_comm fuel c sel : forall k w r w',
  s_comm E = None ->
  streamAlgo_while E fuel c k sel w = (r, w') ->
  comm_calls (trace w') = comm_calls (trace w).
Proof.
  induction fuel as [|fuel IH]; intros k w r w' Hn H; cbn in H.
  - now inversion H.
  - unfold bind at 1 in H.
    destruct (streamAlgo_body E c k sel w) as [r1 w1] eqn:Hb.
    apply (streamAlgo_body_no_comm _ _ _ _ _ _ Hn) in Hb.
    destruct r1 as [[]|e|]; try (inversion H; subst; exact Hb).
    rewrite <- Hb. eapply IH; eassumption.
Qed.

(** X19: when the server was started with [--robot none], the default,
    [main] leaves [s_comm] unset and no request, whatever its path and
    whatever is detected, makes a call on the control channel. *)
Theorem no_robot_no_comm robot fuel path w r w' :
  s_comm E = main_s_comm robot ->
  robot = "none" ->
  do_GET E fuel path w = (r, w') ->
  comm_calls (trace w') = comm_calls (trace w).
Proof.
  intros Hs -> H. cbn in Hs.
  destruct (is_stream_path path) eqn:Hp.
  - destruct (do_GET_stream_cases _ _ _ _ _ Hp H)
      as [(e & _ & _ & ->) | [(_ & e & _ & _ & ->) | [(_ & c & _ & _ & _ & ->)
         | (_ & c & r1 & w1 & _ & _ & Hses & _ & Hr)]]].
    + st_simpl. rewrite comm_calls_app. cbn. now rewrite app_nil_r.
    + st_simpl. rewrite !comm_calls_app, comm_calls_writes. cbn. now rewrite app_nil_r.
    + cbn [add_events opened_state trace]. rewrite !comm_calls_app, comm_calls_writes.
      cbn. now rewrite !app_nil_r.
    + assert (Hw1 : comm_calls (trace w1) = comm_calls (trace w)).
      { destruct (algostr path =? "direct").
        - apply streamDirect_extends in Hses as [_ (d & Ht & Hev)].
          rewrite Ht. cbn [opened_state trace]. rewrite !comm_calls_app, comm_calls_writes.
          unfold comm_calls at 4.
          rewrite (filter_excluded _ _ _ _ d (direct_event_not_comm Image Value) Hev).
          cbn. now rewrite !app_nil_r.
        - unfold streamAlgo, print, cam_start, emit, bind, ret, raise in Hses.
          st_simpl in Hses. destruct (res_start E).
          + run_eq Hses. st_simpl. cbn [opened_state trace].
            rewrite !comm_calls_app, comm_calls_writes. cbn. now rewrite !app_nil_r.
          + apply (streamAlgo_while_no_comm _ _ _ _ _ _ _ Hs) in Hses. rewrite Hses.
            st_simpl. cbn [opened_state trace].
            rewrite !comm_calls_app, comm_calls_writes. cbn.
            now rewrite !app_nil_r. }
      destruct r1 as [[]|e|]; inversion Hr; subst; cbn [add_events trace];
        rewrite ?comm_calls_app; cbn; rewrite ?app_nil_r; exact Hw1.
  - unfold do_GET in H. rewrite Hp in H. rewrite serve_mainPage_cases in H.
    cbv zeta in H.
    destruct (head_write E w);
      [|destruct (res_write E (nwrite (headed_state E w "text/html")))];
      run_eq H; cbn [headed_state trace];
      rewrite ?comm_calls_app, ?comm_calls_writes; cbn; now rewrite ?app_nil_r.
Qed.

(** ** The landing page *)

(** X20: the landing page is served without fuel and without the
    camera, and it fails only by its writes: when the client takes the
    head but not the page, do_GET raises the exception of the write of
    the page, with the head alone on the wire and nothing of it left in
    the header buffer.  (For a request line without an HTTP version
    there is no head: the page is the first write, the wire stays as it
    was and the header buffer is not touched.) *)
Theorem landing_page_write_failure fuel path w e :
  is_stream_path path = false ->
  head_write E w = None ->
  res_write E (length (head_chunks E (headers_buffer w) "text/html") + nwrite w)
    = Some e ->
  exists w',
    do_GET E fuel path w = (Raise e, w') /\
    wire (trace w') = wire (trace w) ++ head_chunks E (headers_buffer w) "text/html" /\
    headers_buffer w' = (if http09 E then headers_buffer w else []) /\
    nwrite w' = S (length (head_chunks E (headers_buffer w) "text/html") + nwrite w).
Proof.
  intros Hp H0 H1. unfold do_GET. rewrite Hp, serve_mainPage_cases, H0. cbv zeta.
  assert (Hn : nwrite (headed_state E w "text/html") =
               length (head_chunks E (headers_buffer w) "text/html") + nwrite w).
  { unfold head_chunks. cbn. now destruct (http09 E). }
  rewrite Hn, H1.
  eexists. split; [reflexivity|]. cbn [headed_state trace nwrite headers_buffer].
  rewrite !wire_app, wire_map_EvWrite. cbn. auto.
Qed.

(** ** Noticing a client that left *)

(** An iteration that hands over without skipping has made the writes
    of its part. *)
Lemma streamAlgo_body_next_writes c k sel w w1 :
  algo_skips E sel k = false ->
  streamAlgo_body E c k sel w = (Ok Next, w1) ->
  nwrite w1 = part_writes E + nwrite w /\
  forall j, j < part_writes E -> res_write E (j + nwrite w) = None.
Proof.
  unfold algo_skips, part_writes. intros Hs H. unfold_handler. revert H.
  destruct (http09 E); intros H; cbn in H;
    repeat (case_step; cbn in H); inversion H; subst; clear H;
    try discriminate; try absurd_negb; st_simpl;
    (split; [reflexivity|]);
    intros [|[|[|?]]] Hj; cbn [Nat.add]; first [assumption | lia].
Qed.

Lemma streamAlgo_while_disconnect fuel c sel i e : forall k w,
  (forall j, algo_skips E sel j = false) ->
  res_write E i = Some e ->
  nwrite w <= i ->
  i - nwrite w < part_writes E * fuel ->
  fst (streamAlgo_while E fuel c k sel w) <> Timeout.
Proof.
  induction fuel as [|fuel IH]; intros k w Hs Hi Hle Hlt; [lia|].
  cbn [streamAlgo_while]. unfold bind at 1.
  destruct (streamAlgo_body E c k sel w) as [r1 w1] eqn:Hb.
  pose proof (streamAlgo_body_returns _ _ _ _ _ _ Hb) as Hr.
  destruct r1 as [[]|e1|]; cbn; try discriminate; try congruence.
  destruct (streamAlgo_body_next_writes _ _ _ _ _ (Hs k) Hb) as (Hn & Hw).
  assert (nwrite w1 <= i).
  { destruct (Nat.lt_ge_cases i (nwrite w1)) as [Hc|Hc]; [|exact Hc].
    assert (Hj : i - nwrite w < part_writes E) by lia.
    apply Hw in Hj. replace (i - nwrite w + nwrite w) with i in Hj by lia.
    congruence. }
  rewrite Nat.mul_succ_r in Hlt.
  apply IH; [exact Hs | exact Hi | assumption | lia].
Qed.

Lemma streamDirect_for_disconnect fuel c i e : forall k w,
  res_write E i = Some e ->
  nwrite w <= i ->
  i - nwrite w < part_writes E * fuel ->
  fst (streamDirect_for E fuel c k w) <> Timeout.
Proof.
  unfold part_writes.
  induction fuel as [|fuel IH]; intros k w Hi Hle Hlt; [destruct (http09 E); lia|].
  cbn [streamDirect_for]. unfold_handler. cbn.
  repeat (case_step; cbn); try discriminate.
  all: assert (Hne0 : i <> nwrite w) by congruence;
    assert (Hne1 : i <> S (nwrite w)) by congruence;
    try assert (Hne2 : i <> S (S (nwrite w))) by congruence;
    apply IH; [exact Hi | st_simpl; lia | st_simpl; lia].
Qed.


End Further.

(** ** The further properties on sample runs *)

Lemma session_failures_contained_witness :
  fst (do_GET (next_fails_env 1) 5 "/cam.mjpg" fresh) = Ok tt \/
  fst (do_GET (next_fails_env 1) 5 "/cam.mjpg" fresh) = Timeout.
Proof.
  apply (session_failures_contained nat nat (next_fails_env 1) 5 "/cam.mjpg" fresh _
           (snd (do_GET (next_fails_env 1) 5 "/cam.mjpg" fresh))).
  - reflexivity.
  - reflexivity.
  - reflexivity.
  - vm_compute. reflexivity.
Defined.

Lemma camera_opened_after_head_and_sleep_witness :
  exists rest,
    trace (snd (do_GET good_env 5 "/direct.mjpg" fresh)) =
      trace fresh ++ [EvLogRequest 200]
        ++ map EvWrite (stream_head_chunks good_env fresh)
        ++ [EvSleep 1000; EvPiCam (res_PiCam good_env)] ++ rest.
Proof.
  apply (camera_opened_after_head_and_sleep nat nat good_env 5 "/direct.mjpg" fresh (Ok tt)).
  - reflexivity.
  - reflexivity.
  - vm_compute. reflexivity.
Defined.

Lemma head_write_failure_leaves_camera_alone_witness :
  exists w',
    do_GET (disconnect_env 0) 5 "/cam.mjpg" fresh = (Raise broken_pipe, w') /\
    trace w' = trace fresh ++ [EvLogRequest 200] /\
    headers_buffer w' = headers_buffer fresh ++ stream_head (disconnect_env 0) /\
    nwrite w' = S (nwrite fresh).
Proof.
  apply (head_write_failure_leaves_camera_alone nat nat (disconnect_env 0) 5 "/cam.mjpg"
           fresh broken_pipe).
  - reflexivity.
  - reflexivity.
Defined.


Lemma streamAlgo_returns_after_exception_only_witness :
  exists t e,
    trace (snd (streamAlgo (process_fails_env 1) 5 the_cam "cam" fresh)) =
      t ++ algo_exception_events e.
Proof.
  apply (streamAlgo_returns_after_exception_only nat nat (process_fails_env 1) 5 the_cam
           "cam" fresh).
  vm_compute. reflexivity.
Defined.

Lemma failing_frame_ends_session_witness :
  fst (do_GET (next_fails_env 2) 3 "/cam.mjpg" fresh) <> Timeout.
Proof.
  apply (failing_frame_ends_session nat nat (next_fails_env 2) 3 "/cam.mjpg" fresh 2).
  - reflexivity.
  - reflexivity.
  - reflexivity.
  - lia.
Defined.

Lemma skipping_stream_never_notices_disconnect_witness :
  exists w',
    streamAlgo_while never_encodes_env 7 the_cam 0 "cam" fresh = (Timeout, w') /\
    nwrite w' = nwrite fresh /\
    wire (trace w') = wire (trace fresh).
Proof.
  apply (skipping_stream_never_notices_disconnect nat nat never_encodes_env 7 the_cam "cam").
  intros k. reflexivity.
Defined.

Lemma faultless_stream_never_ends_witness :
  exists w' jpgs,
    streamAlgo_while good_env 4 the_cam 0 "cam" fresh = (Timeout, w') /\
    map (algo_jpeg good_env "cam") (seq 0 4) = map Some jpgs /\
    wire (trace w') = wire (trace fresh) ++ flat_map (part_chunks good_env) jpgs.
Proof.
  apply (faultless_stream_never_ends nat nat good_env 4 the_cam "cam" fresh).
  - reflexivity.
  - intros i. reflexivity.
  - intros k. discriminate.
Defined.



Lemma start_failure_ends_session_witness :
  do_GET start_fails_env 0 "/cam.mjpg" fresh =
    (stop_result start_fails_env,
     add_events (opened_state start_fails_env fresh the_cam)
       [EvPrint (algostr "/cam.mjpg" ++ " algo streaming"); EvStart;
        EvPrint (exn_str camera_error); EvPrint done_streaming; EvStop]).
Proof.
  apply (start_failure_ends_session nat nat start_fails_env 0 "/cam.mjpg" fresh the_cam
           camera_error); reflexivity.
Defined.



Lemma capture_end_ends_session_witness :
  fst (do_GET good_env 4 "/direct.mjpg" fresh) <> Timeout.
Proof.
  apply (capture_end_ends_session nat nat good_env 4 "/direct.mjpg" fresh 3).
  - reflexivity.
  - reflexivity.
  - reflexivity.
  - lia.
Defined.

Lemma direct_mode_uses_capture_only_witness :
  filter algo_only_event (trace (snd (do_GET good_env 5 "/direct.mjpg" fresh))) =
    filter algo_only_event (trace fresh) /\
  pauses (trace (snd (do_GET good_env 5 "/direct.mjpg" fresh))) = pauses (trace fresh).
Proof.
  apply (direct_mode_uses_capture_only nat nat good_env 5 "/direct.mjpg" fresh (Ok tt)).
  - reflexivity.
  - reflexivity.
  - vm_compute. reflexivity.
Defined.

Lemma algo_mode_never_captures_witness :
  filter is_capture (trace (snd (do_GET (process_fails_env 2) 5 "/cam.mjpg" fresh))) =
    filter is_capture (trace fresh).
Proof.
  apply (algo_mode_never_captures nat nat (process_fails_env 2) 5 "/cam.mjpg" fresh (Ok tt)).
  - reflexivity.
  - reflexivity.
  - vm_compute. reflexivity.
Defined.

Lemma no_robot_no_comm_witness :
  comm_calls (trace (snd (do_GET no_robot_env 5 "/cam.mjpg" fresh))) =
    comm_calls (trace fresh).
Proof.
  apply (no_robot_no_comm nat nat no_robot_env "none" 5 "/cam.mjpg" fresh (Ok tt)).
  - reflexivity.
  - reflexivity.
  - vm_compute. reflexivity.
Defined.

Lemma landing_page_write_failure_witness :
  exists w',
    do_GET (disconnect_env 1) 5 "/index.html" fresh = (Raise broken_pipe, w') /\
    wire (trace w') =
      wire (trace fresh)
        ++ head_chunks (disconnect_env 1) (headers_buffer fresh) "text/html" /\
    headers_buffer w' =
      (if http09 (disconnect_env 1) then headers_buffer fresh else []) /\
    nwrite w' =
      S (length (head_chunks (disconnect_env 1) (headers_buffer fresh) "text/html")
         + nwrite fresh).
Proof.
  apply (landing_page_write_failure nat nat (disconnect_env 1) 5 "/index.html" fresh
           broken_pipe); reflexivity.
Defined.

